(** * NazaraEngine: rendering-resource wrappers and the ASCII Unicode tables

    A shallow embedding of the engine's resource wrappers
    ([Buffer], [VertexBuffer], [VertexDeclaration], [Vk::DeviceMemory],
    [Vk::Image], [GL::Shader]) and of the ASCII implementation of
    [Nz::Unicode], together with the properties stated about them.

    Conventions.
    - Fixed-width integers are [Z] with the wrap-around written out.
    - A pointer that may be null is an [option]; a pointer into a vector
      is the position of the element it designates.
    - Native entry points (Vulkan, OpenGL) are parameters of a [Section]:
      their answers may depend on the calls issued so far, which are
      recorded in a trace.
    - An [assert] that fails, or a null pointer that is dereferenced, is
      an explicit outcome of the model, not an omitted case. *)

From Stdlib Require Import ZArith List Lia Bool.
From Stdlib.Strings Require Import Ascii Byte.
From stdpp Require Import base decidable option list numbers.

Local Open Scope Z_scope.

(** ** Machine integers *)

Definition wrap32 (z : Z) : Z := z mod 2 ^ 32.

Definition is_uint32 (z : Z) : Prop := 0 <= z < 2 ^ 32.

(** ** Outcomes of a call

    [Ok v] is a normal return; [AssertFailure] is an [assert] /
    [NazaraAssert] whose condition is false; [NullDereference] is a
    member access through a null pointer; [LengthError] is
    [std::length_error], raised by [std::string::resize]. *)

Inductive outcome (A : Type) : Type :=
  | Ok (v : A)
  | AssertFailure
  | NullDereference
  | LengthError.

Arguments Ok {A} v.
Arguments AssertFailure {A}.
Arguments NullDereference {A}.
Arguments LengthError {A}.

Definition is_Ok {A} (o : outcome A) : Prop :=
  match o with Ok _ => True | _ => False end.

(** ** Nz::Unicode, the implementation handling the ASCII table

    This is the [#else] branch of [NAZARA_CORE_INCLUDE_UNICODEDATA].
    A [char32_t] is a [Z] in [0, 2^32); character literals are written
    as their codes. *)

Module Unicode.

(** The enumerators of [Unicode::Category] that the ASCII table uses. *)
Inductive Category : Set :=
  | Category_NoCategory
  | Category_Other_Control
  | Category_Separator_Space
  | Category_Punctuation_Other
  | Category_Punctuation_Open
  | Category_Punctuation_Close
  | Category_Punctuation_Dash
  | Category_Punctuation_Connector
  | Category_Symbol_Math
  | Category_Symbol_Modifier
  | Category_Number_DecimalDigit.

#[global] Instance Category_eq_dec : EqDecision Category.
Proof. solve_decision. Defined.

(** [switch (character)]: one arm per group of [case] labels, in the
    order of the source; [default: break] falls to the final
    [return Category_NoCategory]. *)
Definition GetCategory (character : Z) : Category :=
  match character with
  | 0 | 1 | 2 | 3 | 4 | 5 | 6 | 7 | 8 | 9 | 10 | 11 | 12 | 13 | 14 | 15
  | 16 | 17 | 18 | 19 | 20 | 21 | 22 | 23 | 24 | 25 | 26 | 27 | 28 | 29 | 30 | 31
  | 127 =>
      Category_Other_Control
  | 32 =>
      Category_Separator_Space
  | 33 | 34 | 35 | 36 | 37 | 38 | 39 | 42 | 44 | 46 | 47 | 58 | 59 | 63 | 64 | 92 =>
      Category_Punctuation_Other
  | 40 | 91 | 123 =>
      Category_Punctuation_Open
  | 41 | 125 | 93 =>
      Category_Punctuation_Close
  | 43 | 60 | 61 | 62 | 124 | 126 =>
      Category_Symbol_Math
  | 45 =>
      Category_Punctuation_Dash
  | 48 | 49 | 50 | 51 | 52 | 53 | 54 | 55 | 56 | 57 =>
      Category_Number_DecimalDigit
  | 65 | 66 | 67 | 68 | 69 | 70 | 71 | 72 | 73 | 74 | 75 | 76 | 77 | 78 | 79 | 80
  | 81 | 82 | 83 | 84 | 85 | 86 | 87 | 88 | 89 | 90 =>
      Category_Number_DecimalDigit
  | 95 =>
      Category_Punctuation_Connector
  | 94 | 96 =>
      Category_Symbol_Modifier
  | 97 | 98 | 99 | 100 | 101 | 102 | 103 | 104 | 105 | 106 | 107 | 108 | 109 | 110 | 111 | 112
  | 113 | 114 | 115 | 116 | 117 | 118 | 119 | 120 | 121 | 122 =>
      Category_Number_DecimalDigit
  | _ => Category_NoCategory
  end.

(** [character + ('a' - 'A')]: the [int] difference is converted to
    the unsigned 32-bit type of [character] and the sum wraps. *)
Definition GetLowercase (character : Z) : Z :=
  if (65 <=? character) && (character <=? 90)
  then wrap32 (character + (97 - 65))
  else character.

Definition GetUppercase (character : Z) : Z :=
  if (97 <=? character) && (character <=? 122)
  then wrap32 (character + (65 - 97))
  else character.

Definition GetTitlecase (character : Z) : Z :=
  GetUppercase character.

(** The codes of 'A'..'Z', of 'a'..'z' and of '0'..'9'. *)
Definition upper_letters : list Z := seqZ 65 26.
Definition lower_letters : list Z := seqZ 97 26.
Definition decimal_digits : list Z := seqZ 48 10.

(** The enumerators of [Unicode::Direction] that the ASCII table uses. *)
Inductive Direction : Set :=
  | Direction_Boundary_Neutral
  | Direction_Segment_Separator
  | Direction_Paragraph_Separator
  | Direction_White_Space
  | Direction_Other_Neutral
  | Direction_European_Terminator
  | Direction_European_Separator
  | Direction_Common_Separator
  | Direction_European_Number
  | Direction_Left_To_Right.

#[global] Instance Direction_eq_dec : EqDecision Direction.
Proof. solve_decision. Defined.

(** [switch (character)] of [GetDirection], arm by arm; [default: break]
    falls to the final [return Direction_Boundary_Neutral]. *)
Definition GetDirection (character : Z) : Direction :=
  match character with
  | 0 | 1 | 2 | 3 | 4 | 5 | 6 | 7 | 8 | 14 | 15 | 16 | 17 | 18 | 19 | 20
  | 21 | 22 | 23 | 24 | 25 | 26 | 27 | 127 =>
      Direction_Boundary_Neutral
  | 9 | 11 | 31 =>
      Direction_Segment_Separator
  | 10 | 13 | 28 | 29 | 30 =>
      Direction_Paragraph_Separator
  | 12 | 32 =>
      Direction_White_Space
  | 33 | 34 | 38 | 39 | 40 | 41 | 42 | 59 | 60 | 61 | 62 | 63 | 64 | 91 | 92 | 93
  | 94 | 95 | 96 | 123 | 124 | 125 | 126 =>
      Direction_Other_Neutral
  | 35 | 36 | 37 =>
      Direction_European_Terminator
  | 43 | 45 =>
      Direction_European_Separator
  | 44 | 46 | 47 | 58 =>
      Direction_Common_Separator
  | 48 | 49 | 50 | 51 | 52 | 53 | 54 | 55 | 56 | 57 =>
      Direction_European_Number
  | 65 | 66 | 67 | 68 | 69 | 70 | 71 | 72 | 73 | 74 | 75 | 76 | 77 | 78 | 79 | 80
  | 81 | 82 | 83 | 84 | 85 | 86 | 87 | 88 | 89 | 90 | 97 | 98 | 99 | 100 | 101 | 102
  | 103 | 104 | 105 | 106 | 107 | 108 | 109 | 110 | 111 | 112 | 113 | 114 | 115 | 116 | 117 | 118
  | 119 | 120 | 121 | 122 =>
      Direction_Left_To_Right
  | _ => Direction_Boundary_Neutral
  end.

(** The codes of the ASCII table. *)
Definition ascii_codes : list Z := seqZ 0 128.

Definition is_letter (c : Z) : Prop := 65 <= c <= 90 \/ 97 <= c <= 122.

End Unicode.

(** ** Nz::VertexDeclaration (VertexDeclaration.inl)

    The enumerations [VertexComponent], [ComponentType] and
    [VertexInputRate] are declared in Enums.hpp; they are parameters
    here, with [VertexComponent_Userdata] the one enumerator the code
    names. *)

Module VertexDeclaration.
Section Declaration.

Context {VertexComponent ComponentType VertexInputRate : Type}.
Context `{EqDecision VertexComponent}.
Variable VertexComponent_Userdata : VertexComponent.

(** [VertexDeclaration::Component]; [componentIndex] and [offset] are
    [std::size_t]. *)
Record Component : Type := mkComponent {
  type : ComponentType;
  component : VertexComponent;
  componentIndex : Z;
  offset : Z
}.

Record t : Type := mkDeclaration {
  m_components : list Component;
  m_inputRate : VertexInputRate;
  m_stride : Z
}.

(** A component carries the (semantic, index) pair. *)
Definition carries (vertexComponent : VertexComponent) (idx : Z)
    (c : Component) : Prop :=
  component c = vertexComponent /\ componentIndex c = idx.

(** The test of the loop body of [FindComponent]. *)
Definition matches (vertexComponent : VertexComponent) (idx : Z)
    (c : Component) : bool :=
  bool_decide (component c = vertexComponent) && (componentIndex c =? idx).

(** [for (const Component& component : m_components)]: [pos] is the
    position of the head of [cs] in [m_components]; the value returned
    for [&component] is that position, [None] is [nullptr]. *)
Fixpoint scan (vertexComponent : VertexComponent) (idx : Z)
    (cs : list Component) (pos : nat) : option nat :=
  match cs with
  | [] => None
  | c :: rest =>
      if matches vertexComponent idx c then Some pos
      else scan vertexComponent idx rest (S pos)
  end.

Definition FindComponent (d : t) (vertexComponent : VertexComponent)
    (idx : Z) : outcome (option nat) :=
  if (idx =? 0) || bool_decide (vertexComponent = VertexComponent_Userdata)
  then Ok (scan vertexComponent idx (m_components d) 0%nat)
  else AssertFailure.

(** [m_components[componentIndex]]; an index past the end is outside
    the vector. *)
Definition GetComponent (d : t) (i : nat) : option Component :=
  m_components d !! i.

Definition GetComponentCount (d : t) : Z :=
  Z.of_nat (length (m_components d)).

Definition GetInputRate (d : t) : VertexInputRate := m_inputRate d.

Definition GetStride (d : t) : Z := m_stride d.

(** [FindComponent(component, componentIndex) != nullptr] *)
Definition HasComponent (d : t) (vertexComponent : VertexComponent)
    (idx : Z) : outcome bool :=
  match FindComponent d vertexComponent idx with
  | Ok p => Ok (bool_decide (p <> None))
  | AssertFailure => AssertFailure
  | NullDereference => NullDereference
  | LengthError => LengthError
  end.

End Declaration.

Section ByType.

Context {VertexComponent ComponentType VertexInputRate : Type}.
Context `{EqDecision VertexComponent} `{EqDecision ComponentType}.
Variable VertexComponent_Userdata : VertexComponent.

(** [GetComponentByType<T>]: [componentTypeOfT] is the value of
    [GetComponentTypeOf<T>()].  [component->type] reads the component
    the pointer designates. *)
Definition GetComponentByType (componentTypeOfT : ComponentType)
    (d : @t VertexComponent ComponentType VertexInputRate)
    (vertexComponent : VertexComponent) (idx : Z) : outcome (option nat) :=
  if (idx =? 0) || bool_decide (vertexComponent = VertexComponent_Userdata)
  then
    match FindComponent VertexComponent_Userdata d vertexComponent idx with
    | Ok (Some p) =>
        match m_components d !! p with
        | Some c =>
            if bool_decide (componentTypeOfT = type c) then Ok (Some p)
            else Ok None
        | None => NullDereference
        end
    | Ok None => Ok None
    | AssertFailure => AssertFailure
    | NullDereference => NullDereference
    | LengthError => LengthError
    end
  else AssertFailure.

(** [GetComponentByType<T>(vertexComponent, componentIndex) != nullptr] *)
Definition HasComponentOfType (componentTypeOfT : ComponentType)
    (d : @t VertexComponent ComponentType VertexInputRate)
    (vertexComponent : VertexComponent) (idx : Z) : outcome bool :=
  match GetComponentByType componentTypeOfT d vertexComponent idx with
  | Ok p => Ok (bool_decide (p <> None))
  | AssertFailure => AssertFailure
  | NullDereference => NullDereference
  | LengthError => LengthError
  end.

(** [std::begin(declaration)]: [&declaration.GetComponent(0)], after
    [assert(declaration.GetComponentCount() != 0)]. *)
Definition std_begin (d : @t VertexComponent ComponentType VertexInputRate)
    : outcome nat :=
  if GetComponentCount d =? 0 then AssertFailure else Ok 0%nat.

(** [std::end(declaration)]: one past
    [&declaration.GetComponent(declaration.GetComponentCount() - 1)]. *)
Definition std_end (d : @t VertexComponent ComponentType VertexInputRate)
    : outcome nat :=
  if GetComponentCount d =? 0 then AssertFailure
  else Ok (Z.to_nat (GetComponentCount d - 1) + 1)%nat.

(** The (semantic, index) pair of a component. *)
Definition key (c : @Component VertexComponent ComponentType)
    : VertexComponent * Z :=
  (component c, componentIndex c).

End ByType.
End VertexDeclaration.

(** ** Nz::Buffer (Buffer.inl)

    [m_impl] is a [std::unique_ptr<AbstractBuffer>]; the backend type and
    its virtual [GetStorage] are parameters. *)

Module Buffer.
Section Accessors.

Context {AbstractBuffer DataStorage BufferType BufferUsageFlags : Type}.
Context `{EqDecision DataStorage}.
Variable AbstractBuffer_GetStorage : AbstractBuffer -> DataStorage.

Record t : Type := mkBuffer {
  m_impl : option AbstractBuffer;
  m_size : Z;
  m_type : BufferType;
  m_usage : BufferUsageFlags
}.

Definition GetImpl (b : t) : option AbstractBuffer := m_impl b.

Definition GetSize (b : t) : Z := m_size b.

(** [return m_impl->GetStorage();] *)
Definition GetStorage (b : t) : outcome DataStorage :=
  match m_impl b with
  | Some impl => Ok (AbstractBuffer_GetStorage impl)
  | None => NullDereference
  end.

Definition GetType (b : t) : BufferType := m_type b.

Definition GetUsage (b : t) : BufferUsageFlags := m_usage b.

(** [return GetStorage() == storage;] *)
Definition HasStorage (b : t) (storage : DataStorage) : outcome bool :=
  match GetStorage b with
  | Ok s => Ok (bool_decide (s = storage))
  | AssertFailure => AssertFailure
  | NullDereference => NullDereference
  | LengthError => LengthError
  end.

(** [return m_impl != nullptr;] *)
Definition IsValid (b : t) : bool :=
  match m_impl b with Some _ => true | None => false end.

End Accessors.

Arguments t : clear implicits.

End Buffer.

(** ** Calls that record native entry points

    A computation reads and extends the trace of native calls issued so
    far and either returns or stops with one of the outcomes above. *)

Definition Native (E A : Type) : Type := list E -> outcome (A * list E).

Definition ret {E A} (a : A) : Native E A := fun tr => Ok (a, tr).

Definition bind {E A B} (m : Native E A) (k : A -> Native E B) : Native E B :=
  fun tr =>
    match m tr with
    | Ok (a, tr') => k a tr'
    | AssertFailure => AssertFailure
    | NullDereference => NullDereference
    | LengthError => LengthError
    end.

Definition stop {E A} (o : outcome (A * list E)) : Native E A := fun _ => o.

(** Issue the call [e]; its answer is computed by [answer] from the
    calls issued before it. *)
Definition call {E A} (e : E) (answer : list E -> A) : Native E A :=
  fun tr => Ok (answer tr, tr ++ [e]).

(** Dereference a pointer that may be null. *)
Definition deref {E A} (p : option A) : Native E A :=
  match p with
  | Some a => ret a
  | None => stop NullDereference
  end.

Notation "'let*' x := m 'in' k" := (bind m (fun x => k))
  (at level 10, x name, m at level 100, k at level 200).
Notation "m ;; k" := (bind m (fun _ => k))
  (at level 100, k at level 200, right associativity).

(** ** std::string as far as [Shader::Compile] uses it *)

Definition NUL : Ascii.ascii := Ascii.zero.

(** [s.resize(n)] where [n] is a [GLint]: a negative [n] converts to a
    [size_type] above [max_size()], and [resize] throws; otherwise the
    string is cut to [n] characters or padded with [char()]. *)
Definition string_resize (s : list Ascii.ascii) (n : Z)
    : outcome (list Ascii.ascii) :=
  if n <? 0 then LengthError
  else Ok (take (Z.to_nat n) s
           ++ replicate (Z.to_nat n - length s)%nat NUL).

(** The effect on the characters at [s.data()] of a callee that stores
    [written] there. *)
Definition string_store (s written : list Ascii.ascii) : list Ascii.ascii :=
  written ++ drop (length written) s.

(** ** Nz::GL::Shader (Shader.inl)

    [m_device] is an [OpenGLDevice*], [m_shader] a [GLuint] whose zero
    value means no handle.  The entry points are reached through
    [m_device->GetReferenceContext()]; a device stands for its reference
    context. *)

Module Shader.

(** OpenGL's values of the two [glGetShaderiv] parameter names. *)
Definition GL_COMPILE_STATUS : Z := 0x8B81.
Definition GL_INFO_LOG_LENGTH : Z := 0x8B84.

Section Wrapper.

Variable OpenGLDevice : Type.

Inductive GLCall : Type :=
  | glCompileShader (ctx : OpenGLDevice) (shader : Z)
  | glGetShaderiv (ctx : OpenGLDevice) (shader pname : Z)
  | glGetShaderInfoLog (ctx : OpenGLDevice) (shader bufSize : Z)
  | glCreateShader (ctx : OpenGLDevice) (type : Z)
  | glDeleteShader (ctx : OpenGLDevice) (shader : Z)
  | glShaderBinary (ctx : OpenGLDevice) (shader binaryFormat : Z)
      (binary : list Byte.byte) (length : Z)
  | glShaderSource (ctx : OpenGLDevice) (shader : Z)
      (source : list Ascii.ascii) (length : Z).

(** What the driver answers, given the calls before. *)
Variable answer_GetShaderiv :
  list GLCall -> OpenGLDevice -> Z -> Z -> Z.
Variable answer_GetShaderInfoLog :
  list GLCall -> OpenGLDevice -> Z -> Z -> list Ascii.ascii.
Variable answer_CreateShader :
  list GLCall -> OpenGLDevice -> Z -> Z.

Record t : Type := mkShader {
  m_device : option OpenGLDevice;
  m_shader : Z
}.

Definition GL := Native GLCall.

Definition Compile (s : t) (error : option (list Ascii.ascii))
    : GL (bool * option (list Ascii.ascii)) :=
  if m_shader s =? 0 then stop AssertFailure
  else
    let* context := deref (m_device s) in
    call (glCompileShader context (m_shader s)) (fun _ => tt) ;;
    let* success :=
      call (glGetShaderiv context (m_shader s) GL_COMPILE_STATUS)
           (fun tr => answer_GetShaderiv tr context (m_shader s)
                        GL_COMPILE_STATUS) in
    if success =? 0 then
      match error with
      | Some e =>
          let* logLength :=
            call (glGetShaderiv context (m_shader s) GL_INFO_LOG_LENGTH)
                 (fun tr => answer_GetShaderiv tr context (m_shader s)
                              GL_INFO_LOG_LENGTH) in
          match string_resize e logLength with
          | Ok e' =>
              if 0 <? logLength then
                let* written :=
                  call (glGetShaderInfoLog context (m_shader s) logLength)
                       (fun tr => answer_GetShaderInfoLog tr context
                                    (m_shader s) logLength) in
                ret (false, Some (string_store e' written))
              else ret (false, Some e')
          | _ => stop LengthError
          end
      | None => ret (false, None)
      end
    else ret (true, error).

Definition Destroy (s : t) : GL t :=
  if m_shader s =? 0 then ret s
  else
    let* device := deref (m_device s) in
    call (glDeleteShader device (m_shader s)) (fun _ => tt) ;;
    ret {| m_device := m_device s; m_shader := 0 |}.

Definition Create (s : t) (device : OpenGLDevice) (type : Z)
    : GL (bool * t) :=
  let* s1 := Destroy s in
  let* shader := call (glCreateShader device type)
                      (fun tr => answer_CreateShader tr device type) in
  let s2 := {| m_device := Some device; m_shader := shader |} in
  if shader =? 0 then ret (false, s2)
  else ret (true, s2).

Definition SetBinarySource (s : t) (binaryFormat : Z)
    (binary : list Byte.byte) (length : Z) : GL unit :=
  if m_shader s =? 0 then stop AssertFailure
  else
    let* device := deref (m_device s) in
    call (glShaderBinary device (m_shader s) binaryFormat binary length)
         (fun _ => tt).

Definition SetSource (s : t) (source : list Ascii.ascii) (length : Z)
    : GL unit :=
  if m_shader s =? 0 then stop AssertFailure
  else
    let* device := deref (m_device s) in
    call (glShaderSource device (m_shader s) source length) (fun _ => tt).

End Wrapper.

Section Lifetime.

Variable OpenGLDevice : Type.
Variable answer_GetShaderiv :
  list (GLCall OpenGLDevice) -> OpenGLDevice -> Z -> Z -> Z.
Variable answer_GetShaderInfoLog :
  list (GLCall OpenGLDevice) -> OpenGLDevice -> Z -> Z -> list Ascii.ascii.
Variable answer_CreateShader :
  list (GLCall OpenGLDevice) -> OpenGLDevice -> Z -> Z.

(** The member functions a user may call on a shader. *)
Inductive Op : Type :=
  | OpCompile (error : option (list Ascii.ascii))
  | OpCreate (device : OpenGLDevice) (type : Z)
  | OpDestroy
  | OpSetBinarySource (binaryFormat : Z) (binary : list Byte.byte)
      (length : Z)
  | OpSetSource (source : list Ascii.ascii) (length : Z).

(** One call; the result is the shader object after it. *)
Definition exec (op : Op) (s : t OpenGLDevice)
    : GL OpenGLDevice (t OpenGLDevice) :=
  match op with
  | OpCompile error =>
      let* r := Compile OpenGLDevice answer_GetShaderiv
                  answer_GetShaderInfoLog s error in
      ret s
  | OpCreate device type =>
      let* r := Create OpenGLDevice answer_CreateShader s device type in
      ret (snd r)
  | OpDestroy => Destroy OpenGLDevice s
  | OpSetBinarySource binaryFormat binary length =>
      SetBinarySource OpenGLDevice s binaryFormat binary length ;; ret s
  | OpSetSource source length =>
      SetSource OpenGLDevice s source length ;; ret s
  end.

(** A sequence of calls on one shader object. *)
Fixpoint run (ops : list Op) (s : t OpenGLDevice)
    : GL OpenGLDevice (t OpenGLDevice) :=
  match ops with
  | [] => ret s
  | op :: rest => let* s' := exec op s in run rest s'
  end.

(** Whether the call [c], issued after the calls [before], made the
    driver hand out a shader object: a [glCreateShader] answered with a
    non-null handle. *)
Definition handed_out (before : list (GLCall OpenGLDevice))
    (c : GLCall OpenGLDevice) : nat :=
  match c with
  | glCreateShader _ ctx type =>
      if answer_CreateShader before ctx type =? 0 then 0%nat else 1%nat
  | _ => 0%nat
  end.

(** The shader objects handed out by the calls [rest], where [before]
    are the calls issued before them. *)
Fixpoint created_from (before rest : list (GLCall OpenGLDevice)) : nat :=
  match rest with
  | [] => 0%nat
  | c :: rest' =>
      (handed_out before c + created_from (before ++ [c]) rest')%nat
  end.

Definition created (tr : list (GLCall OpenGLDevice)) : nat :=
  created_from [] tr.

(** The [glDeleteShader] calls of a trace. *)
Definition is_delete (c : GLCall OpenGLDevice) : bool :=
  match c with glDeleteShader _ _ _ => true | _ => false end.

Definition deleted (tr : list (GLCall OpenGLDevice)) : nat :=
  length (filter (fun c => is_delete c = true) tr).

(** The number of handles a shader object holds: one or none. *)
Definition held (s : t OpenGLDevice) : nat :=
  if m_shader OpenGLDevice s =? 0 then 0%nat else 1%nat.

(** The shader object a native call is about, for the calls that take
    one. *)
Definition shader_argument (c : GLCall OpenGLDevice) : option Z :=
  match c with
  | glCompileShader _ _ shader => Some shader
  | glGetShaderiv _ _ shader _ => Some shader
  | glGetShaderInfoLog _ _ shader _ => Some shader
  | glCreateShader _ _ _ => None
  | glDeleteShader _ _ shader => Some shader
  | glShaderBinary _ _ shader _ _ _ => Some shader
  | glShaderSource _ _ shader _ _ => Some shader
  end.

(** A shader that holds a handle knows the device it came from. *)
Definition consistent (s : t OpenGLDevice) : Prop :=
  m_shader OpenGLDevice s <> 0 -> m_device OpenGLDevice s <> None.

(** A native call about the shader object [h] that neither creates nor
    deletes one. *)
Definition inert (h : Z) (c : GLCall OpenGLDevice) : Prop :=
  shader_argument c = Some h /\ is_delete c = false.

(** The calls that start or end the life of a handle. *)
Definition lifetime_op (op : Op) : Prop :=
  match op with
  | OpCreate _ _ | OpDestroy => True
  | _ => False
  end.

(** Every shader object handed out so far has been deleted, but for the
    one the shader holds. *)
Definition balanced (s : t OpenGLDevice) (tr : list (GLCall OpenGLDevice))
    : Prop :=
  created tr = (deleted tr + held s)%nat.

End Lifetime.
End Shader.

(** ** Nz::Vk::Image (VkImage.inl) *)

Module Image.

(** Vulkan's value of [VK_SUCCESS]. *)
Definition VK_SUCCESS : Z := 0.

Section Wrapper.

Variable Device : Type.

Inductive VkCall : Type :=
  | vkBindImageMemory (device : Device) (image memory offset : Z)
  | vkGetImageMemoryRequirements (device : Device) (image : Z).

Variable answer_BindImageMemory :
  list VkCall -> Device -> Z -> Z -> Z -> Z.

(** The members an [Image] inherits from [DeviceObject]. *)
Record t : Type := mkImage {
  m_device : option Device;
  m_handle : Z;
  m_lastErrorCode : Z
}.

Definition Vk := Native VkCall.

Definition BindImageMemory (img : t) (memory offset : Z) : Vk (bool * t) :=
  let* device := deref (m_device img) in
  let* code := call (vkBindImageMemory device (m_handle img) memory offset)
                    (fun tr => answer_BindImageMemory tr device
                                 (m_handle img) memory offset) in
  let img' := {| m_device := m_device img;
                 m_handle := m_handle img;
                 m_lastErrorCode := code |} in
  if negb (code =? VK_SUCCESS) then ret (false, img')
  else ret (true, img').

(** The last-error accessor of [DeviceObject]. *)
Definition GetLastErrorCode (img : t) : Z := m_lastErrorCode img.

Definition IsValid (img : t) : bool := negb (m_handle img =? 0).

End Wrapper.
End Image.

(** ** Nz::Buffer, the byte-level operations

    [Buffer::Fill], [Buffer::Map] and [Buffer::Unmap] are defined in
    Buffer.cpp and in the backends; of these operations only the
    declarations of VertexBuffer.hpp, which forward to them, are
    available. *)

Module BufferOps.
Section Backend.

Context {DataStorage BufferType BufferUsageFlags : Type}.

(** Modelled from the spec: the backend implementation object behind
    [AbstractBuffer], "a storage-agnostic byte buffer with a declared
    usage/storage mode, supporting fill, map, and unmap".  [contents]
    are the bytes it holds and [mapped] tells whether a pointer
    obtained by [Map] is live. *)
Record AbstractBuffer : Type := mkBackend {
  storage : DataStorage;
  contents : list byte;
  mapped : bool
}.

(** Modelled from the spec: whether "the backend rejects the write",
    which the spec leaves to the backend. *)
Variable backend_accepts : AbstractBuffer -> Z -> Z -> bool.

(** Modelled from the spec: what a backend that "may drop prior
    contents" leaves at each position once it has dropped them. *)
Variable dropped : nat -> byte.

Abbreviation Buffer :=
  (Buffer.t AbstractBuffer BufferType BufferUsageFlags).

Definition set_impl (b : Buffer) (impl : AbstractBuffer) : Buffer :=
  {| Buffer.m_impl := Some impl;
     Buffer.m_size := Buffer.m_size b;
     Buffer.m_type := Buffer.m_type b;
     Buffer.m_usage := Buffer.m_usage b |}.

(** Modelled from the spec: the bytes of the backend after it "writes
    [size] bytes at [offset]"; with [forceDiscard] the unwritten
    regions need not be preserved. *)
Definition write (old data : list byte) (offset size : Z)
    (forceDiscard : bool) : list byte :=
  let base := if forceDiscard then imap (fun i _ => dropped i) old else old in
  take (Z.to_nat offset) base
    ++ take (Z.to_nat size) data
    ++ drop (Z.to_nat (offset + size)) base.

(** Modelled from the spec: [Buffer::Fill(data, offset, size,
    forceDiscard)] "writes [size] bytes at [offset]; fails if
    [offset+size] exceeds the buffer's declared size or if the backend
    rejects the write"; "a buffer with no implementation is invalid
    and rejects map/fill calls".  A failed call leaves the buffer as
    it was. *)
Definition Fill (b : Buffer) (data : list byte) (offset size : Z)
    (forceDiscard : bool) : bool * Buffer :=
  match Buffer.m_impl b with
  | None => (false, b)
  | Some impl =>
      if Buffer.m_size b <? offset + size then (false, b)
      else if negb (backend_accepts impl offset size) then (false, b)
      else (true,
            set_impl b
              {| storage := storage impl;
                 contents := write (contents impl) data offset size
                               forceDiscard;
                 mapped := mapped impl |})
  end.

(** Modelled from the spec: [Buffer::Map] "returns a pointer valid only
    until the matching [Unmap]; calling [Map] while already mapped ...
    is a contract violation", and an invalid buffer rejects the call.
    The pointer is the position of the first mapped byte in the
    backend's storage. *)
Definition Map (b : Buffer) (offset size : Z)
    : outcome (option Z * Buffer) :=
  match Buffer.m_impl b with
  | None => Ok (None, b)
  | Some impl =>
      if mapped impl then AssertFailure
      else Ok (Some offset,
               set_impl b
                 {| storage := storage impl;
                    contents := contents impl;
                    mapped := true |})
  end.

(** Modelled from the spec: "[Unmap] while not mapped is a contract
    violation". *)
Definition Unmap (b : Buffer) : outcome Buffer :=
  match Buffer.m_impl b with
  | None => AssertFailure
  | Some impl =>
      if mapped impl then
        Ok (set_impl b
              {| storage := storage impl;
                 contents := contents impl;
                 mapped := false |})
      else AssertFailure
  end.

(** Modelled from the spec: the [size] bytes observed through a
    pointer returned by [Map]; nothing is observed through a pointer
    that is not live. *)
Definition observe (b : Buffer) (ptr size : Z) : option (list byte) :=
  match Buffer.m_impl b with
  | Some impl =>
      if mapped impl
      then Some (take (Z.to_nat size) (drop (Z.to_nat ptr) (contents impl)))
      else None
  | None => None
  end.

(** The declared size is the size of the backend's storage. *)
Definition well_formed (b : Buffer) : Prop :=
  match Buffer.m_impl b with
  | Some impl => Z.of_nat (length (contents impl)) = Buffer.m_size b
  | None => True
  end.

End Backend.
End BufferOps.

(** ** NzVertexBuffer (VertexBuffer.hpp)

    The header declares the members; the constructors and accessors are
    defined in VertexBuffer.cpp, which is not available. *)

Module VertexBuffer.
Section Window.

Context {VertexComponent ComponentType VertexInputRate BufferRef : Type}.

Abbreviation Declaration :=
  (@VertexDeclaration.t VertexComponent ComponentType VertexInputRate).

(** The private members, in the order of the header; the offsets and
    the count are [unsigned int]. *)
Record t : Type := mkVertexBuffer {
  m_buffer : BufferRef;
  m_vertexDeclaration : Declaration;
  m_endOffset : Z;
  m_startOffset : Z;
  m_vertexCount : Z
}.

(** Modelled from the spec: the constructor over a byte window
    [[startOffset, endOffset)] of [buffer]; "[end - start] must be a
    multiple of the declaration's stride; vertex count = window
    length / stride", and "constructing one with a window length not a
    multiple of stride must fail".  The window length is computed in
    [unsigned int]; [None] is the failed construction. *)
Definition New (vertexDeclaration : Declaration) (buffer : BufferRef)
    (startOffset endOffset : Z) : option t :=
  let length := wrap32 (endOffset - startOffset) in
  let stride := VertexDeclaration.GetStride vertexDeclaration in
  if length mod stride =? 0 then
    Some {| m_buffer := buffer;
            m_vertexDeclaration := vertexDeclaration;
            m_endOffset := endOffset;
            m_startOffset := startOffset;
            m_vertexCount := length / stride |}
  else None.

(** Modelled from the spec: the accessors the header declares return
    the members of the same name. *)
Definition GetBuffer (vb : t) : BufferRef := m_buffer vb.
Definition GetEndOffset (vb : t) : Z := m_endOffset vb.
Definition GetStartOffset (vb : t) : Z := m_startOffset vb.
Definition GetStride (vb : t) : Z :=
  VertexDeclaration.GetStride (m_vertexDeclaration vb).
Definition GetVertexCount (vb : t) : Z := m_vertexCount vb.
Definition GetVertexDeclaration (vb : t) : Declaration :=
  m_vertexDeclaration vb.

End Window.
End VertexBuffer.

(** ** Nz::Vk::DeviceMemory (DeviceMemory.hpp)

    The header declares the class; its inline definitions
    (DeviceMemory.inl) and the [DeviceObject] template it derives from
    are not available. *)

Module DeviceMemory.

Definition VK_SUCCESS : Z := 0.

(** A [void*] is an address; the null pointer is address zero. *)
Definition nullptr : Z := 0.

(** [m_mappedPtr] is the member the header declares; [m_handle] and
    [m_lastErrorCode] are those of the [DeviceObject] base. *)
Record t : Type := mkDeviceMemory {
  m_handle : Z;
  m_lastErrorCode : Z;
  m_mappedPtr : Z
}.

(** Modelled from the spec: a native device object's "handle is null
    until [Create] succeeds", and a [DeviceMemory] reports no mapped
    pointer before [Map]. *)
Definition init : t :=
  {| m_handle := 0; m_lastErrorCode := VK_SUCCESS; m_mappedPtr := nullptr |}.

(** Modelled from the spec: [Create] "constructs the native object via
    a child-supplied static creation hook, stores the handle ...;
    returns failure (propagating the native error code) without
    mutating prior state if the hook fails".  [result] and [handle]
    are what the hook answers. *)
Definition Create (m : t) (result handle : Z) : bool * t :=
  if result =? VK_SUCCESS then
    (true, {| m_handle := handle; m_lastErrorCode := result;
              m_mappedPtr := m_mappedPtr m |})
  else
    (false, {| m_handle := m_handle m; m_lastErrorCode := result;
               m_mappedPtr := m_mappedPtr m |}).

(** Modelled from the spec: [Map(offset, size, flags)] "requests a
    host-visible pointer over a sub-range; fails if the memory was not
    allocated from a host-visible heap".  [result] and [ptr] are what
    the native call answers; the pointer is kept on success only. *)
Definition Map (m : t) (offset size flags : Z) (result ptr : Z)
    : bool * t :=
  if result =? VK_SUCCESS then
    (true, {| m_handle := m_handle m; m_lastErrorCode := result;
              m_mappedPtr := ptr |})
  else
    (false, {| m_handle := m_handle m; m_lastErrorCode := result;
               m_mappedPtr := m_mappedPtr m |}).

(** Modelled from the spec: after [Unmap] no mapped pointer is
    reported. *)
Definition Unmap (m : t) : t :=
  {| m_handle := m_handle m; m_lastErrorCode := m_lastErrorCode m;
     m_mappedPtr := nullptr |}.

(** Modelled from the spec: [Destroy] "calls the child-supplied
    destruction hook only if the handle is non-null, then nulls the
    handle", and after destruction a [DeviceMemory] reports no mapped
    pointer. *)
Definition Destroy (m : t) : t :=
  {| m_handle := 0; m_lastErrorCode := m_lastErrorCode m;
     m_mappedPtr := nullptr |}.

(** Modelled from the spec: [GetMappedPointer] reports the optional
    mapped host pointer. *)
Definition GetMappedPointer (m : t) : Z := m_mappedPtr m.

(** The operations a caller may issue, each with the answer of the
    native call it makes. *)
Inductive Op : Type :=
  | OpCreate (result handle : Z)
  | OpMap (offset size flags : Z) (result ptr : Z)
  | OpUnmap
  | OpDestroy.

Definition step (m : t) (op : Op) : t :=
  match op with
  | OpCreate result handle => snd (Create m result handle)
  | OpMap offset size flags result ptr =>
      snd (Map m offset size flags result ptr)
  | OpUnmap => Unmap m
  | OpDestroy => Destroy m
  end.

Definition run (ops : list Op) : t := fold_left step ops init.

(** A [Map] that returned [true]. *)
Definition successful_map (op : Op) : bool :=
  match op with
  | OpMap _ _ _ result _ => result =? VK_SUCCESS
  | _ => false
  end.

(** An [Unmap] or a destruction. *)
Definition releases (op : Op) : bool :=
  match op with
  | OpUnmap | OpDestroy => true
  | _ => false
  end.

End DeviceMemory.

(** ** Ndk::BaseWidget (BaseWidget.cpp), the entity and child lists

    [m_entities] is a vector of [WidgetEntity] and [m_children] a vector
    of owning pointers to widgets.  The element types are parameters:
    the two functions below read an entry only through the handle, or
    the pointer, it is compared by. *)

Module BaseWidget.

(** [std::find_if(first, last, pred)]: the position of the first
    element that satisfies [pred]; the length of the sequence, that is
    [last], when there is none. *)
Fixpoint find_if {A : Type} (pred : A -> bool) (l : list A) : nat :=
  match l with
  | [] => 0%nat
  | x :: rest => if pred x then 0%nat else S (find_if pred rest)
  end.

Section Lists.

Context {WidgetEntity Entity WidgetPtr Widget : Type}.
Context `{EqDecision Entity} `{EqDecision Widget}.

(** [widgetEntity.handle] *)
Variable handle : WidgetEntity -> Entity.

(** [widgetPtr.get()] *)
Variable get : WidgetPtr -> Widget.

(** [BaseWidget::DestroyEntity]: the value is [m_entities] after the
    call. *)
Definition DestroyEntity (m_entities : list WidgetEntity) (entity : Entity)
    : outcome (list WidgetEntity) :=
  let it :=
    find_if (fun widgetEntity => bool_decide (handle widgetEntity = entity))
      m_entities in
  if bool_decide (it <> length m_entities)
  then Ok (delete it m_entities)
  else AssertFailure.

(** [BaseWidget::DestroyChild]: the value is [m_children] after the
    call. *)
Definition DestroyChild (m_children : list WidgetPtr) (widget : Widget)
    : outcome (list WidgetPtr) :=
  let it :=
    find_if (fun widgetPtr => bool_decide (get widgetPtr = widget))
      m_children in
  if bool_decide (it <> length m_children)
  then Ok (delete it m_children)
  else AssertFailure.

(** [BaseWidget::DestroyChildren]: [m_children.clear()]. *)
Definition DestroyChildren (m_children : list WidgetPtr) : list WidgetPtr :=
  [].

End Lists.
End BaseWidget.

(** ** Concrete instances

    A driver whose compiler rejects every shader with the log "bad"
    followed by the terminating NUL, and whose [glCreateShader] hands
    out the handle after the number of calls seen; a shader holding
    handle 3; an image bound to a device. *)

Module Examples.

Definition driver_status (tr : list (Shader.GLCall unit)) (ctx : unit)
    (shader pname : Z) : Z :=
  if pname =? Shader.GL_COMPILE_STATUS then 0 else 4.

Definition driver_log (tr : list (Shader.GLCall unit)) (ctx : unit)
    (shader bufSize : Z) : list ascii :=
  take (Z.to_nat bufSize)
    [ascii_of_nat 98; ascii_of_nat 97; ascii_of_nat 100; NUL].

Definition driver_create (tr : list (Shader.GLCall unit)) (ctx : unit)
    (type : Z) : Z :=
  Z.of_nat (length tr).

Definition shader : Shader.t unit :=
  {| Shader.m_device := Some tt; Shader.m_shader := 3 |}.

Definition stale_error : list ascii :=
  [ascii_of_nat 111; ascii_of_nat 108; ascii_of_nat 100;
   ascii_of_nat 101; ascii_of_nat 114; ascii_of_nat 33].

(** A software buffer of four bytes whose backend accepts every write
    and leaves [xff] where it dropped contents. *)
Definition backend : @BufferOps.AbstractBuffer unit :=
  {| BufferOps.storage := tt;
     BufferOps.contents := [x01; x02; x03; x04];
     BufferOps.mapped := false |}.

Definition backend_accepts (impl : @BufferOps.AbstractBuffer unit)
    (offset size : Z) : bool := true.

Definition dropped (i : nat) : byte := xff.

Definition buffer : Buffer.t (@BufferOps.AbstractBuffer unit) unit unit :=
  {| Buffer.m_impl := Some backend; Buffer.m_size := 4;
     Buffer.m_type := tt; Buffer.m_usage := tt |}.

(** The layout with a position at offset 0 (12 bytes) and a colour at
    offset 12 (4 bytes), stride 16; the semantics are numbered. *)
Definition position_color : @VertexDeclaration.t Z unit unit :=
  {| VertexDeclaration.m_components :=
       [ VertexDeclaration.mkComponent tt 2 0 0;
         VertexDeclaration.mkComponent tt 0 0 12 ];
     VertexDeclaration.m_inputRate := tt;
     VertexDeclaration.m_stride := 16 |}.

(** A shader as constructed, and a sequence of calls on it: a creation
    the driver refuses, a creation it grants, a compilation, and the
    destruction; with the shader and the trace at the end. *)
Definition fresh_shader : Shader.t unit :=
  {| Shader.m_device := None; Shader.m_shader := 0 |}.

Definition session : list (Shader.Op unit) :=
  [ Shader.OpCreate unit tt 35633; Shader.OpCreate unit tt 35633;
    Shader.OpCompile unit None; Shader.OpDestroy unit ].

Definition session_end : Shader.t unit :=
  {| Shader.m_device := Some tt; Shader.m_shader := 0 |}.

Definition session_trace : list (Shader.GLCall unit) :=
  [ Shader.glCreateShader unit tt 35633;
    Shader.glCreateShader unit tt 35633;
    Shader.glCompileShader unit tt 1;
    Shader.glGetShaderiv unit tt 1 Shader.GL_COMPILE_STATUS;
    Shader.glDeleteShader unit tt 1 ].

(** A driver that reports a failed compilation with a negative log
    length. *)
Definition driver_status_negative (tr : list (Shader.GLCall unit))
    (ctx : unit) (shader pname : Z) : Z :=
  if pname =? Shader.GL_COMPILE_STATUS then 0 else -1.

(** A declaration with two user-data components of the same index and
    of different types (types and semantics are numbered; 5 stands for
    the user-data semantic). *)
Definition userdata_twice : @VertexDeclaration.t Z Z unit :=
  {| VertexDeclaration.m_components :=
       [ VertexDeclaration.mkComponent 1 2 0 0;
         VertexDeclaration.mkComponent 3 5 0 12;
         VertexDeclaration.mkComponent 4 5 0 16 ];
     VertexDeclaration.m_inputRate := tt;
     VertexDeclaration.m_stride := 32 |}.

End Examples.

(** * Properties *)

(** ** Unicode, ASCII table *)

Section UnicodeFacts.
Import Unicode.

Lemma wrap32_small (z : Z) : 0 <= z < 2 ^ 32 -> wrap32 z = z.
Proof. intros Hz. unfold wrap32. apply Z.mod_small. exact Hz. Qed.

(** On a lower-case ASCII letter the sum does not wrap: the result is
    the letter 32 places below. *)
Lemma GetUppercase_lower (c : Z) :
  97 <= c <= 122 -> GetUppercase c = c - 32.
Proof.
  intros Hc. unfold GetUppercase.
  replace (97 <=? c) with true by (symmetry; apply Z.leb_le; lia).
  replace (c <=? 122) with true by (symmetry; apply Z.leb_le; lia).
  cbn [andb]. rewrite wrap32_small; lia.
Qed.

Lemma GetUppercase_other (c : Z) :
  ~ 97 <= c <= 122 -> GetUppercase c = c.
Proof.
  intros Hc. unfold GetUppercase.
  destruct (Z.leb_spec 97 c), (Z.leb_spec c 122); cbn [andb]; try reflexivity.
  lia.
Qed.

(** C8. In the ASCII implementation, the title case of every character
    is its upper case: [GetTitlecase] returns what [GetUppercase]
    returns. *)
Theorem GetTitlecase_is_GetUppercase (c : Z) :
  GetTitlecase c = GetUppercase c.
Proof. reflexivity. Qed.

Lemma GetCategory_on_ranges :
  Forall (fun c => GetCategory c = Category_Number_DecimalDigit)
         (upper_letters ++ lower_letters ++ decimal_digits).
Proof. compute_done. Qed.

(** C9. In the ASCII implementation, [GetCategory] returns
    [Category_Number_DecimalDigit] for every character in 'A'..'Z' and
    every character in 'a'..'z', which is the category it returns for
    the decimal digits '0'..'9'. *)
Theorem GetCategory_letters_are_digits (c d : Z) :
  65 <= c <= 90 \/ 97 <= c <= 122 ->
  48 <= d <= 57 ->
  GetCategory c = Category_Number_DecimalDigit
  /\ GetCategory c = GetCategory d.
Proof.
  intros Hc Hd.
  pose proof GetCategory_on_ranges as Hall.
  rewrite list.Forall_forall in Hall.
  assert (Hcd : GetCategory c = Category_Number_DecimalDigit).
  { apply Hall. rewrite !elem_of_app.
    unfold upper_letters, lower_letters. rewrite !elem_of_seqZ.
    destruct Hc; [left | right; left]; lia. }
  split; [exact Hcd |].
  rewrite Hcd. symmetry. apply Hall. rewrite !elem_of_app.
  unfold decimal_digits. rewrite !elem_of_seqZ. right; right; lia.
Qed.

Lemma GetCategory_letters_are_digits_witness :
  GetCategory 65 = Category_Number_DecimalDigit
  /\ GetCategory 65 = GetCategory 48.
Proof.
  apply (GetCategory_letters_are_digits 65 48); [left |]; lia.
Defined.

End UnicodeFacts.

(** ** VertexDeclaration::FindComponent *)

Section FindComponentFacts.
Import VertexDeclaration.

Context {VertexComponent ComponentType VertexInputRate : Type}.
Context `{EqDecision VertexComponent}.
Variable Userdata : VertexComponent.

Abbreviation Comp := (@Component VertexComponent ComponentType).
Abbreviation Decl :=
  (@VertexDeclaration.t VertexComponent ComponentType VertexInputRate).

Lemma matches_carries vc idx (c : Comp) :
  matches vc idx c = true <-> carries vc idx c.
Proof.
  unfold matches, carries.
  rewrite andb_true_iff, bool_decide_eq_true, Z.eqb_eq. reflexivity.
Qed.

Lemma matches_not_carries vc idx (c : Comp) :
  matches vc idx c = false <-> ~ carries vc idx c.
Proof.
  rewrite <- matches_carries. destruct (matches vc idx c); split; congruence.
Qed.

(** The scan finds nothing exactly when no component carries the pair. *)
Lemma scan_None vc idx (cs : list Comp) pos :
  scan vc idx cs pos = None <-> Forall (fun c => ~ carries vc idx c) cs.
Proof.
  revert pos. induction cs as [| c rest IH]; intros pos; cbn [scan].
  - split; [constructor | reflexivity].
  - destruct (matches vc idx c) eqn:Hm.
    + split; [discriminate |].
      intros Hall. inversion Hall as [| ? ? Hc _]; subst.
      apply matches_carries in Hm. contradiction.
    + rewrite IH. apply matches_not_carries in Hm.
      split; [intros Hr; constructor; assumption |].
      intros Hall. inversion Hall; assumption.
Qed.

(** What the scan finds is the first component that carries the pair;
    the position is counted from [pos]. *)
Lemma scan_Some vc idx (cs : list Comp) pos p :
  scan vc idx cs pos = Some p ->
  exists i c, p = (pos + i)%nat /\ cs !! i = Some c /\ carries vc idx c
    /\ Forall (fun c' => ~ carries vc idx c') (take i cs).
Proof.
  revert pos. induction cs as [| c rest IH]; intros pos; cbn [scan].
  - discriminate.
  - destruct (matches vc idx c) eqn:Hm.
    + intros [= <-]. exists 0%nat, c.
      apply matches_carries in Hm.
      repeat split; [lia | apply Hm | apply Hm | constructor].
    + intros Hs. destruct (IH _ Hs) as (i & c' & -> & Hl & Hc & Hbefore).
      exists (S i), c'. apply matches_not_carries in Hm.
      repeat split; [lia | exact Hl | apply Hc | apply Hc |].
      cbn [take]. constructor; assumption.
Qed.

Lemma assert_holds (vc : VertexComponent) (idx : Z) :
  idx = 0 \/ vc = Userdata ->
  (idx =? 0) || bool_decide (vc = Userdata) = true.
Proof.
  intros [-> | ->]; [reflexivity |].
  rewrite bool_decide_eq_true_2 by reflexivity. apply orb_true_r.
Qed.

(** C3. When the index is 0 or the semantic is user-data,
    [FindComponent] returns normally; it returns the null pointer when
    no component of the declaration carries the (semantic, index)
    pair, and a pointer to a component that carries it (the first one
    of the sequence) when one is present. *)
Theorem FindComponent_spec (d : Decl) (vc : VertexComponent) (idx : Z) :
  idx = 0 \/ vc = Userdata ->
  is_Ok (FindComponent Userdata d vc idx)
  /\ ((forall c, c ∈ m_components d -> ~ carries vc idx c) ->
      FindComponent Userdata d vc idx = Ok None
      /\ HasComponent Userdata d vc idx = Ok false)
  /\ ((exists c, c ∈ m_components d /\ carries vc idx c) ->
      exists p c,
        FindComponent Userdata d vc idx = Ok (Some p)
        /\ GetComponent d p = Some c
        /\ carries vc idx c
        /\ Forall (fun c' => ~ carries vc idx c') (take p (m_components d))
        /\ HasComponent Userdata d vc idx = Ok true).
Proof.
  intros Hpre. unfold HasComponent, FindComponent.
  rewrite (assert_holds _ _ Hpre).
  split; [exact I |]. split.
  - intros Habsent.
    assert (Hs : scan vc idx (m_components d) 0%nat = None).
    { apply scan_None. apply list.Forall_forall. exact Habsent. }
    rewrite Hs. split; reflexivity.
  - intros (c & Hin & Hc).
    destruct (scan vc idx (m_components d) 0%nat) as [p |] eqn:Hs.
    + destruct (scan_Some _ _ _ _ _ Hs) as (i & c' & -> & Hl & Hc' & Hbefore).
      exists i, c'. cbn [Nat.add].
      repeat split; try assumption; apply Hc'.
    + apply scan_None in Hs. rewrite list.Forall_forall in Hs.
      exfalso. exact (Hs c Hin Hc).
Qed.

End FindComponentFacts.

Lemma FindComponent_spec_witness :
  let d := {| VertexDeclaration.m_components :=
                [ VertexDeclaration.mkComponent tt 2 0 0;
                  VertexDeclaration.mkComponent tt 5 1 12 ];
              VertexDeclaration.m_inputRate := tt;
              VertexDeclaration.m_stride := 16 |} in
  (1 = 0 \/ 5 = 5)
  /\ is_Ok (VertexDeclaration.FindComponent 5 d 5 1)
  /\ VertexDeclaration.FindComponent 5 d 5 1 = Ok (Some 1%nat)
  /\ VertexDeclaration.FindComponent 5 d 2 1 = AssertFailure.
Proof.
  intros d.
  assert (Hpre : 1 = 0 \/ 5 = 5) by (right; reflexivity).
  split; [exact Hpre |].
  split; [exact (proj1 (FindComponent_spec 5 d 5 1 Hpre)) |].
  split; reflexivity.
Defined.

(** ** Buffer accessors *)

Section BufferFacts.
Import Buffer.

Context {AbstractBuffer DataStorage BufferType BufferUsageFlags : Type}.
Context `{EqDecision DataStorage}.
Variable impl_storage : AbstractBuffer -> DataStorage.

Abbreviation Buf :=
  (Buffer.t AbstractBuffer BufferType BufferUsageFlags).

(** C10. [IsValid] is total and tells whether an implementation is
    present; [GetStorage] and [HasStorage] return normally exactly
    when it is, and on a buffer with no implementation they
    dereference the null pointer. *)
Theorem storage_accessors_require_impl (b : Buf) (storage : DataStorage) :
  (IsValid b = true <-> m_impl b <> None)
  /\ (forall impl, m_impl b = Some impl ->
        GetStorage impl_storage b = Ok (impl_storage impl)
        /\ HasStorage impl_storage b storage
           = Ok (bool_decide (impl_storage impl = storage)))
  /\ (m_impl b = None ->
        IsValid b = false
        /\ GetStorage impl_storage b = NullDereference
        /\ HasStorage impl_storage b storage = NullDereference)
  /\ (is_Ok (GetStorage impl_storage b) <-> IsValid b = true)
  /\ (is_Ok (HasStorage impl_storage b storage) <-> IsValid b = true).
Proof.
  unfold HasStorage, GetStorage, IsValid.
  destruct (m_impl b) as [impl |]; cbn.
  - split; [split; congruence |].
    split; [intros impl' [= <-]; split; reflexivity |].
    split; [discriminate |].
    split; split; intros _; [reflexivity | exact I | reflexivity | exact I].
  - split; [split; congruence |].
    split; [discriminate |].
    split; [intros _; repeat split |].
    split; split; (contradiction || discriminate).
Qed.

End BufferFacts.

(** ** Vk::Image::BindImageMemory *)

Section ImageFacts.
Import Image.

Variable Device : Type.
Variable answer : list (VkCall Device) -> Device -> Z -> Z -> Z -> Z.

(** C7. On an image that has a device, [BindImageMemory] issues the
    native bind call once, returns [true] if and only if the call
    answers [VK_SUCCESS], and in either case stores the answer, which
    the last-error accessor then returns; nothing else of the image
    changes. *)
Theorem BindImageMemory_spec (img : t Device) (device : Device)
    (memory offset : Z) (tr : list (VkCall Device)) :
  m_device _ img = Some device ->
  let code := answer tr device (m_handle _ img) memory offset in
  exists (r : bool) (img' : t Device),
    BindImageMemory _ answer img memory offset tr
    = Ok ((r, img'),
          tr ++ [vkBindImageMemory _ device (m_handle _ img) memory offset])
    /\ (r = true <-> code = VK_SUCCESS)
    /\ GetLastErrorCode _ img' = code
    /\ m_handle _ img' = m_handle _ img
    /\ m_device _ img' = m_device _ img.
Proof.
  intros Hdev code.
  unfold BindImageMemory, bind, deref, call, ret. rewrite Hdev.
  fold code. destruct (Z.eqb_spec code VK_SUCCESS) as [He | Hne]; cbn [negb].
  - eexists _, _. split; [reflexivity |].
    repeat split; try reflexivity; auto.
  - eexists _, _. split; [reflexivity |].
    repeat split; try reflexivity; try discriminate. contradiction.
Qed.

End ImageFacts.

Lemma BindImageMemory_spec_witness :
  let img := {| Image.m_device := Some tt; Image.m_handle := 7;
                Image.m_lastErrorCode := 0 |} in
  exists r img',
    Image.BindImageMemory unit (fun _ _ _ _ _ => -2) img 3 64 []
    = Ok ((r, img'), [Image.vkBindImageMemory unit tt 7 3 64])
    /\ (r = true <-> -2 = Image.VK_SUCCESS)
    /\ Image.GetLastErrorCode unit img' = -2
    /\ Image.m_handle unit img' = 7
    /\ Image.m_device unit img' = Some tt.
Proof.
  intros img.
  exact (BindImageMemory_spec unit (fun _ _ _ _ _ => -2) img tt 3 64 []
           eq_refl).
Defined.

(** ** std::string resizing *)

Lemma string_resize_length (s : list ascii) (n : Z) :
  0 <= n ->
  exists s', string_resize s n = Ok s' /\ Z.of_nat (length s') = n.
Proof.
  intros Hn. unfold string_resize.
  destruct (Z.ltb_spec n 0) as [Hneg | _]; [lia |].
  eexists. split; [reflexivity |].
  rewrite length_app, length_take, length_replicate. lia.
Qed.

Lemma string_resize_negative (s : list ascii) (n : Z) :
  n < 0 -> string_resize s n = LengthError.
Proof.
  intros Hn. unfold string_resize.
  destruct (Z.ltb_spec n 0); [reflexivity | lia].
Qed.

Lemma string_store_length (s written : list ascii) :
  (length written <= length s)%nat ->
  length (string_store s written) = length s.
Proof.
  intros Hfit. unfold string_store.
  rewrite length_app, length_drop. lia.
Qed.

Lemma string_store_prefix (s written : list ascii) :
  take (length written) (string_store s written) = written.
Proof. unfold string_store. apply take_app_length. Qed.

(** ** GL::Shader *)

Section ShaderFacts.
Import Shader.

Variable OpenGLDevice : Type.
Variable getiv : list (GLCall OpenGLDevice) -> OpenGLDevice -> Z -> Z -> Z.
Variable getlog :
  list (GLCall OpenGLDevice) -> OpenGLDevice -> Z -> Z -> list ascii.
Variable create : list (GLCall OpenGLDevice) -> OpenGLDevice -> Z -> Z.

Abbreviation Sh := (Shader.t OpenGLDevice).
Abbreviation Trace := (list (GLCall OpenGLDevice)).

(** [glGetShaderInfoLog] stores at most [bufSize] characters. *)
Hypothesis getlog_fits :
  forall tr ctx shader bufSize,
    0 <= bufSize ->
    Z.of_nat (length (getlog tr ctx shader bufSize)) <= bufSize.

(** C5. On a shader with a handle, [Compile] asks for the compilation
    and its status.  When the status is non-zero it returns [true] and
    the error string is as it was.  When the status is zero it returns
    [false]; with a non-null [error] the string then has the length
    the backend reports for its log (possibly zero, and then no log is
    fetched) and begins with the characters the backend stored as the
    log. *)
Theorem Compile_spec (s : Sh) (ctx : OpenGLDevice)
    (error : option (list ascii)) (tr : Trace) :
  m_shader _ s <> 0 ->
  m_device _ s = Some ctx ->
  let sh := m_shader _ s in
  let tr1 := tr ++ [glCompileShader _ ctx sh] in
  let success := getiv tr1 ctx sh GL_COMPILE_STATUS in
  let tr2 := tr1 ++ [glGetShaderiv _ ctx sh GL_COMPILE_STATUS] in
  let logLength := getiv tr2 ctx sh GL_INFO_LOG_LENGTH in
  let tr3 := tr2 ++ [glGetShaderiv _ ctx sh GL_INFO_LOG_LENGTH] in
  let log := getlog tr3 ctx sh logLength in
  (success <> 0 ->
     Compile _ getiv getlog s error tr = Ok ((true, error), tr2))
  /\ (success = 0 -> error = None ->
     Compile _ getiv getlog s error tr = Ok ((false, None), tr2))
  /\ (success = 0 -> 0 <= logLength ->
      forall e, error = Some e ->
      exists e' tr',
        Compile _ getiv getlog s error tr = Ok ((false, Some e'), tr')
        /\ Z.of_nat (length e') = logLength
        /\ (logLength = 0 -> tr' = tr3)
        /\ (0 < logLength ->
              tr' = tr3 ++ [glGetShaderInfoLog _ ctx sh logLength]
              /\ take (length log) e' = log)).
Proof.
  intros Hsh Hdev sh tr1 success tr2 logLength tr3 log.
  unfold Compile, bind, deref, call, ret, stop.
  replace (m_shader _ s =? 0) with false
    by (symmetry; apply Z.eqb_neq; exact Hsh).
  rewrite Hdev. fold sh tr1. fold success. fold tr2.
  split; [| split].
  - intros Hs.
    replace (success =? 0) with false
      by (symmetry; apply Z.eqb_neq; exact Hs).
    reflexivity.
  - intros -> ->. reflexivity.
  - intros -> Hlen e ->. cbn [Z.eqb].
    fold logLength. fold tr3.
    destruct (string_resize_length e logLength Hlen) as (e1 & -> & Hlen1).
    destruct (Z.ltb_spec 0 logLength) as [Hpos | Hzero].
    + fold log. exists (string_store e1 log), (tr3 ++ [glGetShaderInfoLog _ ctx sh logLength]).
      assert (Hfit : (length log <= length e1)%nat).
      { pose proof (getlog_fits tr3 ctx sh logLength Hlen) as Hb.
        fold log in Hb. lia. }
      split; [reflexivity |].
      split; [rewrite string_store_length by exact Hfit; exact Hlen1 |].
      split; [lia |].
      intros _. split; [reflexivity | apply string_store_prefix].
    + exists e1, tr3.
      split; [reflexivity |].
      split; [exact Hlen1 |].
      split; [reflexivity | lia].
Qed.

(** The calls [Destroy] issues: one deletion when there is a handle. *)
Lemma Destroy_spec (s : Sh) (tr : Trace) :
  (m_shader _ s <> 0 -> m_device _ s <> None) ->
  exists s1 tr1,
    Destroy _ s tr = Ok (s1, tr1)
    /\ m_shader _ s1 = 0
    /\ (m_shader _ s = 0 -> tr1 = tr)
    /\ (forall ctx, m_shader _ s <> 0 -> m_device _ s = Some ctx ->
          tr1 = tr ++ [glDeleteShader _ ctx (m_shader _ s)]).
Proof.
  intros Hinv. unfold Destroy, bind, deref, call, ret, stop.
  destruct (Z.eqb_spec (m_shader _ s) 0) as [Hz | Hnz].
  - exists s, tr. repeat split; [exact Hz | contradiction].
  - destruct (m_device _ s) as [ctx |] eqn:Hdev.
    + eexists _, _. split; [reflexivity |].
      split; [reflexivity |]. split; [contradiction |].
      intros ctx' _ [= <-]. reflexivity.
    + exfalso. apply (Hinv Hnz). reflexivity.
Qed.

(** C6. [Create] first destroys the handle held before (one deletion,
    issued on the previous device, when there was a handle), then
    requests a new shader object of the given stage type on the given
    device.  It returns [true] exactly when the native creation
    answers a non-null handle, which the shader then holds; when the
    answer is null, [Create] returns [false] and the shader is left
    without a handle. *)
Theorem Create_spec (s : Sh) (device : OpenGLDevice) (type : Z)
    (tr : Trace) :
  (m_shader _ s <> 0 -> m_device _ s <> None) ->
  exists s1 tr1 r s2,
    Destroy _ s tr = Ok (s1, tr1)
    /\ m_shader _ s1 = 0
    /\ (m_shader _ s = 0 -> tr1 = tr)
    /\ (forall ctx, m_shader _ s <> 0 -> m_device _ s = Some ctx ->
          tr1 = tr ++ [glDeleteShader _ ctx (m_shader _ s)])
    /\ Create _ create s device type tr
       = Ok ((r, s2), tr1 ++ [glCreateShader _ device type])
    /\ m_shader _ s2 = create tr1 device type
    /\ m_device _ s2 = Some device
    /\ (r = true <-> create tr1 device type <> 0)
    /\ (create tr1 device type = 0 -> r = false /\ m_shader _ s2 = 0).
Proof.
  intros Hinv.
  destruct (Destroy_spec s tr Hinv) as (s1 & tr1 & HD & Hz & Hsame & Hdel).
  exists s1, tr1.
  unfold Create, bind. rewrite HD. unfold call, ret.
  destruct (Z.eqb_spec (create tr1 device type) 0) as [Hnull | Hnn].
  - exists false. eexists.
    do 4 (split; [first [eassumption | reflexivity] |]). split; [reflexivity |].
    do 2 (split; [reflexivity |]).
    split; [split; [discriminate | contradiction] |].
    intros _. split; [reflexivity | exact Hnull].
  - exists true. eexists.
    do 4 (split; [first [eassumption | reflexivity] |]). split; [reflexivity |].
    do 2 (split; [reflexivity |]).
    split; [split; [intros _; exact Hnn | reflexivity] |].
    contradiction.
Qed.

End ShaderFacts.

Lemma example_log_fits (tr : list (Shader.GLCall unit)) (ctx : unit)
    (shader bufSize : Z) :
  0 <= bufSize ->
  Z.of_nat (length (Examples.driver_log tr ctx shader bufSize)) <= bufSize.
Proof.
  intros Hb. unfold Examples.driver_log. rewrite length_take. lia.
Qed.

Lemma Compile_spec_witness :
  exists e' tr',
    Shader.Compile unit Examples.driver_status Examples.driver_log
      Examples.shader (Some Examples.stale_error) []
    = Ok ((false, Some e'), tr')
    /\ Z.of_nat (length e') = 4
    /\ take 4 e' = Examples.driver_log [] tt 3 4.
Proof.
  destruct (Compile_spec unit Examples.driver_status Examples.driver_log
              example_log_fits Examples.shader tt
              (Some Examples.stale_error) [])
    as (_ & _ & Hfail); [discriminate | reflexivity |].
  destruct (Hfail eq_refl ltac:(discriminate) Examples.stale_error eq_refl)
    as (e' & tr' & Hrun & Hlen & _ & Hlog).
  exists e', tr'. split; [exact Hrun |]. split; [exact Hlen |].
  exact (proj2 (Hlog eq_refl)).
Defined.

Lemma Create_spec_witness :
  exists r s2 tr',
    Shader.Create unit Examples.driver_create Examples.shader tt 35633 []
    = Ok ((r, s2), tr')
    /\ (r = true <-> Examples.driver_create [Shader.glDeleteShader unit tt 3]
                       tt 35633 <> 0).
Proof.
  destruct (Create_spec unit Examples.driver_create Examples.shader tt 35633 [])
    as (s1 & tr1 & r & s2 & _ & _ & _ & Hdel & Hrun & _ & _ & Hr & _);
    [discriminate |].
  exists r, s2, (tr1 ++ [Shader.glCreateShader unit tt 35633]).
  split; [exact Hrun |].
  rewrite (Hdel tt) in Hr; [exact Hr | discriminate | reflexivity].
Defined.

(** ** Buffer: Fill and Map *)

Section BufferOpsFacts.
Import BufferOps.

Context {DataStorage BufferType BufferUsageFlags : Type}.
Variable accepts : @AbstractBuffer DataStorage -> Z -> Z -> bool.
Variable dropped : nat -> byte.

Abbreviation Buf' :=
  (Buffer.t (@AbstractBuffer DataStorage) BufferType BufferUsageFlags).

(** A write keeps the number of bytes when it lies within them. *)
Lemma write_length (old data : list byte) (offset size : Z) (fd : bool) :
  0 <= offset -> 0 <= size ->
  offset + size <= Z.of_nat (length old) ->
  Z.of_nat (length data) = size ->
  length (write dropped old data offset size fd) = length old.
Proof.
  intros Ho Hs Hin Hd. unfold write.
  set (base := if fd then imap (fun i _ => dropped i) old else old).
  assert (Hbase : length base = length old).
  { subst base. destruct fd; [apply length_imap | reflexivity]. }
  rewrite !length_app, !length_take, length_drop, Hbase. lia.
Qed.

(** The bytes of the written range are the bytes of [data], whether or
    not the backend dropped the prior contents. *)
Lemma write_read_back (old data : list byte) (offset size : Z) (fd : bool) :
  0 <= offset -> 0 <= size ->
  offset + size <= Z.of_nat (length old) ->
  Z.of_nat (length data) = size ->
  take (Z.to_nat size)
    (drop (Z.to_nat offset) (write dropped old data offset size fd))
  = data.
Proof.
  intros Ho Hs Hin Hd. unfold write.
  set (base := if fd then imap (fun i _ => dropped i) old else old).
  assert (Hbase : length base = length old).
  { subst base. destruct fd; [apply length_imap | reflexivity]. }
  assert (Hpre : length (take (Z.to_nat offset) base) = Z.to_nat offset).
  { rewrite length_take. lia. }
  rewrite drop_app_length' by (symmetry; exact Hpre).
  assert (Hdata : take (Z.to_nat size) data = data).
  { apply take_ge. lia. }
  rewrite Hdata.
  rewrite take_app_length' by lia. reflexivity.
Qed.

(** Outside the written range, a write that does not discard keeps the
    bytes that were there. *)
Lemma write_elsewhere (old data : list byte) (offset size : Z) (i : nat) :
  0 <= offset -> 0 <= size ->
  offset + size <= Z.of_nat (length old) ->
  Z.of_nat (length data) = size ->
  (Z.of_nat i < offset \/ offset + size <= Z.of_nat i) ->
  write dropped old data offset size false !! i = old !! i.
Proof.
  intros Ho Hs Hin Hd Hout. unfold write.
  assert (Hdata : take (Z.to_nat size) data = data) by (apply take_ge; lia).
  rewrite Hdata.
  destruct Hout as [Hbefore | Hafter].
  - rewrite lookup_app_l by (rewrite length_take; lia).
    apply lookup_take_lt. lia.
  - rewrite lookup_app_r by (rewrite length_take; lia).
    rewrite lookup_app_r by (rewrite length_take; lia).
    rewrite lookup_drop, length_take. f_equal. lia.
Qed.

(** C1. On a buffer whose backend accepts the write and holds no live
    mapping, for every range [offset, offset+size) within the declared
    size, [Fill] with [size] bytes succeeds, and [Map] over the same
    range then returns a pointer through which exactly those bytes are
    observed. *)
Theorem Fill_then_Map (b : Buf') (impl : @AbstractBuffer DataStorage)
    (data : list byte) (offset size : Z) (forceDiscard : bool) :
  Buffer.m_impl b = Some impl ->
  well_formed b ->
  mapped impl = false ->
  accepts impl offset size = true ->
  0 <= offset -> 0 <= size ->
  offset + size <= Buffer.m_size b ->
  Z.of_nat (length data) = size ->
  exists b1 ptr b2,
    Fill accepts dropped b data offset size forceDiscard = (true, b1)
    /\ Buffer.m_size b1 = Buffer.m_size b
    /\ well_formed b1
    /\ Map b1 offset size = Ok (Some ptr, b2)
    /\ observe b2 ptr size = Some data.
Proof.
  intros Himpl Hwf Hunmapped Hacc Ho Hs Hin Hd.
  unfold well_formed in Hwf. rewrite Himpl in Hwf.
  unfold Fill. rewrite Himpl.
  destruct (Z.ltb_spec (Buffer.m_size b) (offset + size)) as [Hbad | _];
    [lia |].
  rewrite Hacc. cbn [negb].
  eexists _, offset, _. split; [reflexivity |].
  split; [reflexivity |].
  split.
  { unfold well_formed, set_impl. cbn.
    rewrite write_length by lia. exact Hwf. }
  unfold Map, set_impl. cbn. rewrite Hunmapped.
  split; [reflexivity |].
  unfold observe. cbn.
  rewrite write_read_back by lia. reflexivity.
Qed.

End BufferOpsFacts.

Lemma Fill_then_Map_witness :
  exists b1 ptr b2,
    BufferOps.Fill Examples.backend_accepts Examples.dropped
      Examples.buffer [x11; x22] 1 2 true = (true, b1)
    /\ BufferOps.Map b1 1 2 = Ok (Some ptr, b2)
    /\ BufferOps.observe b2 ptr 2 = Some [x11; x22].
Proof.
  destruct (Fill_then_Map Examples.backend_accepts Examples.dropped
              Examples.buffer Examples.backend [x11; x22] 1 2 true)
    as (b1 & ptr & b2 & HF & _ & _ & HM & HO);
    [reflexivity | reflexivity | reflexivity | reflexivity
    | lia | lia | cbn; lia | reflexivity |].
  exists b1, ptr, b2. split; [exact HF |]. split; [exact HM | exact HO].
Defined.

(** ** VertexBuffer: the vertex count of a window *)

Section VertexBufferFacts.
Import VertexBuffer.

Context {VertexComponent ComponentType VertexInputRate BufferRef : Type}.

Abbreviation VDecl :=
  (@VertexDeclaration.t VertexComponent ComponentType VertexInputRate).

(** For offsets that fit [unsigned int] and are in order, the window
    length is the difference. *)
Lemma window_length (startOffset endOffset : Z) :
  is_uint32 startOffset -> is_uint32 endOffset ->
  startOffset <= endOffset ->
  wrap32 (endOffset - startOffset) = endOffset - startOffset.
Proof.
  unfold is_uint32. intros Hs He Hle. apply wrap32_small. lia.
Qed.

(** C2. For a window [[startOffset, endOffset)] and a declaration of
    stride [S], a vertex buffer that is constructed reports
    [(endOffset - startOffset) / S] vertices over that window, and the
    construction succeeds exactly when the window length is a
    multiple of [S]: it fails otherwise. *)
Theorem vertex_count_of_window (decl : VDecl) (buffer : BufferRef)
    (startOffset endOffset : Z) :
  is_uint32 startOffset -> is_uint32 endOffset ->
  startOffset <= endOffset ->
  0 < VertexDeclaration.GetStride decl ->
  let S := VertexDeclaration.GetStride decl in
  (forall vb, New decl buffer startOffset endOffset = Some vb ->
     GetVertexCount vb = (endOffset - startOffset) / S
     /\ GetVertexCount vb * S = endOffset - startOffset
     /\ GetStartOffset vb = startOffset
     /\ GetEndOffset vb = endOffset
     /\ GetStride vb = S)
  /\ ((endOffset - startOffset) mod S = 0 ->
      exists vb, New decl buffer startOffset endOffset = Some vb)
  /\ ((endOffset - startOffset) mod S <> 0 ->
      New decl buffer startOffset endOffset = None).
Proof.
  intros Hs He Hle Hpos S. unfold New.
  rewrite (window_length _ _ Hs He Hle). fold S.
  destruct (Z.eqb_spec ((endOffset - startOffset) mod S) 0) as [Hm | Hm].
  - split; [| split].
    + intros vb [= <-]. unfold GetVertexCount, GetStartOffset,
        GetEndOffset, GetStride. cbn.
      repeat split; try reflexivity.
      pose proof (Z.div_mod (endOffset - startOffset) S) as Hdm. lia.
    + intros _. eexists. reflexivity.
    + contradiction.
  - split; [| split].
    + discriminate.
    + contradiction.
    + reflexivity.
Qed.

End VertexBufferFacts.

Lemma vertex_count_of_window_witness :
  (exists vb,
     VertexBuffer.New Examples.position_color tt 0 160 = Some vb
     /\ VertexBuffer.GetVertexCount vb = 10)
  /\ VertexBuffer.New Examples.position_color tt 0 150 = None.
Proof.
  split.
  - destruct (vertex_count_of_window Examples.position_color tt 0 160)
      as (Hcount & Hsome & _);
      [unfold is_uint32; lia | unfold is_uint32; lia | lia | reflexivity |].
    destruct (Hsome eq_refl) as (vb & Hvb).
    exists vb. split; [exact Hvb |].
    exact (proj1 (Hcount vb Hvb)).
  - reflexivity.
Defined.

(** ** DeviceMemory: the mapped pointer *)

Section DeviceMemoryFacts.
Import DeviceMemory.

Lemma run_snoc (ops : list Op) (op : Op) :
  run (ops ++ [op]) = step (run ops) op.
Proof. unfold run. apply fold_left_app. Qed.

(** Operations other than a successful [Map] keep a null pointer null. *)
Lemma stays_unmapped (post : list Op) (m : t) :
  GetMappedPointer m = nullptr ->
  Forall (fun op => successful_map op = false) post ->
  GetMappedPointer (fold_left step post m) = nullptr.
Proof.
  revert m. induction post as [| op post IH]; intros m Hm Hall; [exact Hm |].
  inversion Hall as [| ? ? Hop Hrest]; subst. cbn [fold_left].
  apply IH; [| exact Hrest].
  destruct op as [result handle | offset size flags result ptr | |];
    cbn [step]; try reflexivity.
  - unfold Create. destruct (result =? VK_SUCCESS); exact Hm.
  - cbn [successful_map] in Hop. unfold Map. rewrite Hop. exact Hm.
Qed.

(** A non-null pointer was stored by the last successful [Map], and
    nothing released it since. *)
Lemma mapped_since_last_map (ops : list Op) :
  GetMappedPointer (run ops) <> nullptr ->
  exists pre offset size flags ptr post,
    ops = pre ++ OpMap offset size flags VK_SUCCESS ptr :: post
    /\ fst (Map (run pre) offset size flags VK_SUCCESS ptr) = true
    /\ Forall (fun op => releases op = false
                         /\ successful_map op = false) post
    /\ GetMappedPointer (run ops) = ptr.
Proof.
  induction ops as [| op ops IH] using rev_ind; [intros Hn; contradiction |].
  rewrite run_snoc.
  destruct op as [result handle | offset size flags result ptr | |];
    cbn [step]; try (intros Hn; contradiction).
  - unfold Create.
    assert (Hsame : GetMappedPointer
              (if result =? VK_SUCCESS
               then (true, {| m_handle := handle; m_lastErrorCode := result;
                              m_mappedPtr := m_mappedPtr (run ops) |})
               else (false, {| m_handle := m_handle (run ops);
                               m_lastErrorCode := result;
                               m_mappedPtr := m_mappedPtr (run ops) |})).2
            = GetMappedPointer (run ops))
      by (destruct (result =? VK_SUCCESS); reflexivity).
    rewrite Hsame. intros Hn.
    destruct (IH Hn) as (pre & o & sz & fl & p & post & -> & Hok & Hpost & Hp).
    exists pre, o, sz, fl, p, (post ++ [OpCreate result handle]).
    split; [rewrite <- app_assoc; reflexivity |].
    split; [exact Hok |]. split; [| exact Hp].
    apply Forall_app. split; [exact Hpost |].
    constructor; [split; reflexivity | constructor].
  - unfold Map. destruct (Z.eqb_spec result VK_SUCCESS) as [-> | Hfail].
    + intros _. exists ops, offset, size, flags, ptr, [].
      split; [reflexivity |]. split; [reflexivity |].
      split; [constructor | reflexivity].
    + cbn [snd]. intros Hn.
      destruct (IH Hn) as (pre & o & sz & fl & p & post & -> & Hok & Hpost & Hp).
      exists pre, o, sz, fl, p,
        (post ++ [OpMap offset size flags result ptr]).
      split; [rewrite <- app_assoc; reflexivity |].
      split; [exact Hok |]. split; [| exact Hp].
      apply Forall_app. split; [exact Hpost |].
      constructor; [| constructor].
      split; [reflexivity |]. cbn [successful_map].
      apply Z.eqb_neq. exact Hfail.
Qed.

(** C4. Whatever operations are issued on a [DeviceMemory] and however
    the native calls answer: a non-null mapped pointer is reported
    only after a [Map] that succeeded and that no [Unmap] or
    destruction has followed, and it is the pointer of that [Map];
    before the first successful [Map], and after an [Unmap] or a
    destruction until the next successful [Map], no mapped pointer is
    reported. *)
Theorem mapped_pointer_window (ops : list Op) :
  (GetMappedPointer (run ops) <> nullptr ->
     exists pre offset size flags ptr post,
       ops = pre ++ OpMap offset size flags VK_SUCCESS ptr :: post
       /\ fst (Map (run pre) offset size flags VK_SUCCESS ptr) = true
       /\ Forall (fun op => releases op = false
                            /\ successful_map op = false) post
       /\ GetMappedPointer (run ops) = ptr)
  /\ (Forall (fun op => successful_map op = false) ops ->
      GetMappedPointer (run ops) = nullptr)
  /\ (forall release post,
        releases release = true ->
        Forall (fun op => successful_map op = false) post ->
        GetMappedPointer (run (ops ++ release :: post)) = nullptr).
Proof.
  split; [apply mapped_since_last_map |]. split.
  - intros Hall. unfold run. apply stays_unmapped; [reflexivity | exact Hall].
  - intros release post Hrel Hall. unfold run.
    rewrite fold_left_app. cbn [fold_left].
    apply stays_unmapped; [| exact Hall].
    destruct release; try discriminate; reflexivity.
Qed.

End DeviceMemoryFacts.

(** * Further properties of the code *)

(** ** Unicode, ASCII table: coverage and case mappings *)

Section UnicodeTables.
Import Unicode.

(** Outside the ASCII table both switches take their [default]. *)
Lemma outside_ascii (c : Z) :
  ~ 0 <= c <= 127 ->
  GetCategory c = Category_NoCategory
  /\ GetDirection c = Direction_Boundary_Neutral.
Proof.
  intros Hout. destruct c as [| p | p]; [lia | | split; reflexivity].
  do 8 (try (destruct p as [p | p |]; try (split; reflexivity); try lia)).
Qed.

(** A property of every code follows from its instances on the table
    and on the codes outside it. *)
Lemma by_table (P : Z -> Prop) :
  Forall P ascii_codes -> (forall c, ~ 0 <= c <= 127 -> P c) -> forall c, P c.
Proof.
  intros Htable Hout c.
  destruct (decide (0 <= c <= 127)) as [Hin | Hnot]; [| exact (Hout c Hnot)].
  rewrite list.Forall_forall in Htable. apply Htable.
  unfold ascii_codes. rewrite elem_of_seqZ. lia.
Qed.

(** X1. [GetCategory] gives a category to every code of the ASCII table
    and [Category_NoCategory] to every other code, and to no code of
    the table. *)
Theorem GetCategory_NoCategory_iff (c : Z) :
  GetCategory c = Category_NoCategory <-> ~ 0 <= c <= 127.
Proof.
  revert c. apply by_table.
  - compute_done.
  - intros c Hout. split; [intros _; exact Hout |].
    intros _. apply (outside_ascii c Hout).
Qed.

(** X2. The case mappings are inverse to each other on the letters:
    upper-casing the lower case of 'A'..'Z' and lower-casing the upper
    case of 'a'..'z' give the letter back. *)
Theorem case_round_trip (c : Z) :
  (65 <= c <= 90 -> GetUppercase (GetLowercase c) = c)
  /\ (97 <= c <= 122 -> GetLowercase (GetUppercase c) = c).
Proof.
  revert c. apply by_table.
  - compute_done.
  - intros c Hout. split; intros Hc; lia.
Qed.

(** The case mappings leave every code outside their range alone. *)
Lemma GetLowercase_other (c : Z) :
  ~ 65 <= c <= 90 -> GetLowercase c = c.
Proof.
  intros Hc. unfold GetLowercase.
  destruct (Z.leb_spec 65 c), (Z.leb_spec c 90); cbn [andb]; try reflexivity.
  lia.
Qed.

Lemma GetLowercase_upper (c : Z) :
  65 <= c <= 90 -> GetLowercase c = c + 32.
Proof.
  intros Hc. unfold GetLowercase.
  replace (65 <=? c) with true by (symmetry; apply Z.leb_le; lia).
  replace (c <=? 90) with true by (symmetry; apply Z.leb_le; lia).
  cbn [andb]. rewrite wrap32_small; lia.
Qed.

(** X3. [GetLowercase] never returns an upper-case letter and
    [GetUppercase] never a lower-case one; both change exactly the
    letters of the other case, never leave the range of [char32_t], and
    applying either twice is applying it once. *)
Theorem case_mapping_range (c : Z) :
  ~ 65 <= GetLowercase c <= 90
  /\ ~ 97 <= GetUppercase c <= 122
  /\ (GetLowercase c <> c <-> 65 <= c <= 90)
  /\ (GetUppercase c <> c <-> 97 <= c <= 122)
  /\ (is_uint32 c -> is_uint32 (GetLowercase c) /\ is_uint32 (GetUppercase c))
  /\ GetLowercase (GetLowercase c) = GetLowercase c
  /\ GetUppercase (GetUppercase c) = GetUppercase c.
Proof.
  unfold is_uint32.
  destruct (decide (65 <= c <= 90)) as [Hu | Hu];
    destruct (decide (97 <= c <= 122)) as [Hl | Hl]; try lia.
  - rewrite (GetLowercase_upper c Hu), (GetUppercase_other c Hl).
    rewrite (GetLowercase_other (c + 32)) by lia.
    rewrite (GetUppercase_other c Hl). repeat split; lia.
  - rewrite (GetLowercase_other c Hu), (GetUppercase_lower c Hl).
    rewrite (GetUppercase_other (c - 32)) by lia.
    rewrite (GetLowercase_other c Hu). repeat split; lia.
  - rewrite !(GetLowercase_other c Hu), !(GetUppercase_other c Hl).
    repeat split; lia.
Qed.

(** X4. The case mappings do not change how a character is classified:
    category and direction of the mapped character are those of the
    character. *)
Theorem case_mapping_keeps_class (c : Z) :
  GetCategory (GetUppercase c) = GetCategory c
  /\ GetCategory (GetLowercase c) = GetCategory c
  /\ GetDirection (GetUppercase c) = GetDirection c
  /\ GetDirection (GetLowercase c) = GetDirection c.
Proof.
  revert c. apply by_table.
  - compute_done.
  - intros c Hout.
    rewrite (GetUppercase_other c) by lia.
    rewrite (GetLowercase_other c) by lia.
    repeat split.
Qed.

(** X5. [GetDirection] tells the letters from the digits: the direction
    is left-to-right exactly for 'A'..'Z' and 'a'..'z', and European
    number exactly for '0'..'9'. *)
Theorem GetDirection_letters_digits (c : Z) :
  (GetDirection c = Direction_Left_To_Right <-> is_letter c)
  /\ (GetDirection c = Direction_European_Number <-> 48 <= c <= 57).
Proof.
  revert c. apply by_table.
  - compute_done.
  - intros c Hout. destruct (outside_ascii c Hout) as [_ Hd].
    rewrite Hd. unfold is_letter. split; split; (discriminate || lia).
Qed.

(** X6. [GetCategory] does not tell them apart: the codes of category
    [Category_Number_DecimalDigit] are exactly the letters and the
    digits. *)
Theorem GetCategory_DecimalDigit_iff (c : Z) :
  GetCategory c = Category_Number_DecimalDigit
  <-> is_letter c \/ 48 <= c <= 57.
Proof.
  revert c. apply by_table.
  - compute_done.
  - intros c Hout. destruct (outside_ascii c Hout) as [Hc _].
    rewrite Hc. unfold is_letter. split; [discriminate | lia].
Qed.

End UnicodeTables.

(** ** VertexDeclaration: typed lookup, stored components, iteration *)

Section DeclarationLookups.
Import VertexDeclaration.

Context {VertexComponent ComponentType VertexInputRate : Type}.
Context `{EqDecision VertexComponent} `{EqDecision ComponentType}.
Variable Userdata : VertexComponent.

Abbreviation Comp' := (@Component VertexComponent ComponentType).
Abbreviation Decl' :=
  (@VertexDeclaration.t VertexComponent ComponentType VertexInputRate).

(** The scan from position 0 returns [p] exactly when [p] is the first
    position whose component carries the pair. *)
Lemma scan_first vc idx (cs : list Comp') (p : nat) :
  scan vc idx cs 0%nat = Some p <->
  exists c, cs !! p = Some c /\ carries vc idx c
    /\ Forall (fun c' => ~ carries vc idx c') (take p cs).
Proof.
  split.
  - intros Hs. destruct (scan_Some _ _ _ _ _ Hs) as (i & c & -> & Hl & Hc & Hb).
    exists c. cbn [Nat.add]. repeat split; try assumption; apply Hc.
  - intros (c & Hl & Hc & Hb).
    destruct (scan vc idx cs 0%nat) as [q |] eqn:Hs.
    + destruct (scan_Some _ _ _ _ _ Hs) as (i & c' & -> & Hl' & Hc' & Hb').
      cbn [Nat.add]. f_equal.
      destruct (Nat.lt_trichotomy i p) as [Hlt | [Heq | Hgt]]; [| exact Heq |].
      * exfalso. rewrite list.Forall_forall in Hb. apply (Hb c'); [| exact Hc'].
        apply list_elem_of_lookup. exists i. rewrite lookup_take_lt; assumption.
      * exfalso. rewrite list.Forall_forall in Hb'. apply (Hb' c); [| exact Hc].
        apply list_elem_of_lookup. exists p. rewrite lookup_take_lt; assumption.
    + exfalso. apply scan_None in Hs. rewrite list.Forall_forall in Hs.
      apply (Hs c); [| exact Hc]. apply list_elem_of_lookup. eauto.
Qed.

(** X7. Under its assertion, [GetComponentByType<T>] returns normally,
    and it returns a pointer exactly to the first component that
    carries the (semantic, index) pair, provided that one has type [T]:
    when the first carrier has another type the result is null, whatever
    follows it in the sequence. *)
Theorem GetComponentByType_first_carrier (T : ComponentType) (d : Decl')
    (vc : VertexComponent) (idx : Z) :
  idx = 0 \/ vc = Userdata ->
  is_Ok (GetComponentByType Userdata T d vc idx)
  /\ (forall p,
        GetComponentByType Userdata T d vc idx = Ok (Some p) <->
        exists c, GetComponent d p = Some c /\ carries vc idx c
          /\ Forall (fun c' => ~ carries vc idx c') (take p (m_components d))
          /\ type c = T)
  /\ (forall p c,
        GetComponent d p = Some c -> carries vc idx c ->
        Forall (fun c' => ~ carries vc idx c') (take p (m_components d)) ->
        type c <> T ->
        GetComponentByType Userdata T d vc idx = Ok None).
Proof.
  intros Hpre. unfold GetComponentByType, FindComponent, GetComponent.
  rewrite (assert_holds Userdata _ _ Hpre).
  destruct (scan vc idx (m_components d) 0%nat) as [q |] eqn:Hs.
  - pose proof (proj1 (scan_first _ _ _ _) Hs) as (cq & Hlq & Hcq & Hbq).
    rewrite Hlq.
    assert (Hsame : forall p c, m_components d !! p = Some c ->
              carries vc idx c ->
              Forall (fun c' => ~ carries vc idx c') (take p (m_components d)) ->
              p = q /\ c = cq).
    { intros p c Hl Hc Hb.
      assert (Hp : scan vc idx (m_components d) 0%nat = Some p)
        by (apply scan_first; eauto).
      rewrite Hs in Hp. injection Hp as <-.
      rewrite Hlq in Hl. injection Hl as <-. split; reflexivity. }
    destruct (decide (T = type cq)) as [Heq | Hne].
    + rewrite bool_decide_eq_true_2 by exact Heq.
      split; [exact I |]. split.
      * intros p. split.
        -- intros [= <-]. exists cq. repeat split; try assumption; try apply Hcq.
           symmetry; exact Heq.
        -- intros (c & Hl & Hc & Hb & _).
           destruct (Hsame p c Hl Hc Hb) as [-> _]. reflexivity.
      * intros p c Hl Hc Hb Hty.
        destruct (Hsame p c Hl Hc Hb) as [_ ->]. congruence.
    + rewrite bool_decide_eq_false_2 by exact Hne.
      split; [exact I |]. split.
      * intros p. split; [discriminate |].
        intros (c & Hl & Hc & Hb & Hty).
        destruct (Hsame p c Hl Hc Hb) as [_ ->]. congruence.
      * intros; reflexivity.
  - split; [exact I |]. split.
    + intros p. split; [discriminate |].
      intros (c & Hl & Hc & _). exfalso.
      apply scan_None in Hs. rewrite list.Forall_forall in Hs.
      apply (Hs c); [| exact Hc]. apply list_elem_of_lookup. eauto.
    + intros; reflexivity.
Qed.

(** X8. A typed presence test never succeeds where the untyped one
    fails: when [HasComponentOfType<T>] returns [true], so does
    [HasComponent]; when [HasComponent] returns [false], so does
    [HasComponentOfType<T>] for every [T]. *)
Theorem HasComponentOfType_implies_HasComponent (T : ComponentType)
    (d : Decl') (vc : VertexComponent) (idx : Z) :
  idx = 0 \/ vc = Userdata ->
  (HasComponentOfType Userdata T d vc idx = Ok true ->
   HasComponent Userdata d vc idx = Ok true)
  /\ (HasComponent Userdata d vc idx = Ok false ->
      HasComponentOfType Userdata T d vc idx = Ok false).
Proof.
  intros Hpre.
  unfold HasComponentOfType, HasComponent, GetComponentByType, FindComponent.
  rewrite (assert_holds Userdata _ _ Hpre).
  destruct (scan vc idx (m_components d) 0%nat) as [q |] eqn:Hs.
  - split; [intros _; reflexivity | discriminate].
  - split; [discriminate | intros _; reflexivity].
Qed.

(** X9. Looking up the pair of a stored component finds a component at
    or before its position; when no two components of the declaration
    carry the same pair, it finds that very component. *)
Theorem FindComponent_of_stored (d : Decl') (i : nat) (c : Comp') :
  GetComponent d i = Some c ->
  componentIndex c = 0 \/ component c = Userdata ->
  exists j,
    FindComponent Userdata d (component c) (componentIndex c) = Ok (Some j)
    /\ (j <= i)%nat
    /\ (NoDup (key <$> m_components d) -> j = i).
Proof.
  unfold GetComponent. intros Hl Hpre. unfold FindComponent.
  rewrite (assert_holds Userdata _ _ Hpre).
  assert (Hc : carries (component c) (componentIndex c) c)
    by (split; reflexivity).
  destruct (scan (component c) (componentIndex c) (m_components d) 0%nat)
    as [j |] eqn:Hs.
  - exists j. split; [reflexivity |].
    pose proof (proj1 (scan_first _ _ _ _) Hs) as (cj & Hlj & Hcj & Hbj).
    split.
    + destruct (Nat.le_gt_cases j i) as [Hle | Hgt]; [exact Hle |].
      exfalso. rewrite list.Forall_forall in Hbj. apply (Hbj c); [| exact Hc].
      apply list_elem_of_lookup. exists i. rewrite lookup_take_lt; assumption.
    + intros Hnodup.
      apply (NoDup_lookup (key <$> m_components d) j i (key c) Hnodup).
      * rewrite list_lookup_fmap, Hlj. cbn. unfold key.
        destruct Hcj as [-> ->]. reflexivity.
      * rewrite list_lookup_fmap, Hl. reflexivity.
  - exfalso. apply scan_None in Hs. rewrite list.Forall_forall in Hs.
    apply (Hs c); [| exact Hc]. apply list_elem_of_lookup. eauto.
Qed.

(** X10. On a declaration with components, [std::begin] and [std::end]
    delimit exactly the positions of the components, as many as
    [GetComponentCount] tells; on a declaration without components both
    fail their assertion instead of giving an empty range. *)
Theorem begin_end_range (d : Decl') :
  (m_components d = [] ->
     std_begin d = AssertFailure /\ std_end d = AssertFailure)
  /\ (m_components d <> [] ->
      exists b e,
        std_begin d = Ok b /\ std_end d = Ok e
        /\ Z.of_nat e - Z.of_nat b = GetComponentCount d
        /\ forall i, (b <= i < e)%nat <-> is_Some (GetComponent d i)).
Proof.
  unfold std_begin, std_end, GetComponentCount, GetComponent.
  destruct (m_components d) as [| c cs] eqn:Hcs.
  - split; [intros _; split; reflexivity | congruence].
  - split; [discriminate |]. intros _.
    destruct (Z.eqb_spec (Z.of_nat (length (c :: cs))) 0) as [Hz | _];
      [cbn [length] in Hz; lia |].
    eexists _, _. split; [reflexivity |]. split; [reflexivity |].
    split; [cbn [length]; lia |].
    intros i. rewrite lookup_lt_is_Some. cbn [length]. lia.
Qed.

End DeclarationLookups.

(** ** GL::Shader: the life of a handle *)

Lemma bind_Ok {E A B} (m : Native E A) (k : A -> Native E B)
    (tr : list E) (x : B * list E) :
  bind m k tr = Ok x ->
  exists a tr1, m tr = Ok (a, tr1) /\ k a tr1 = Ok x.
Proof.
  unfold bind. destruct (m tr) as [[a tr1] | | |]; try discriminate.
  intros Hk. exists a, tr1. split; [reflexivity | exact Hk].
Qed.

Section ShaderLifetime.
Import Shader.

Variable OpenGLDevice : Type.
Variable getiv : list (GLCall OpenGLDevice) -> OpenGLDevice -> Z -> Z -> Z.
Variable getlog :
  list (GLCall OpenGLDevice) -> OpenGLDevice -> Z -> Z -> list ascii.
Variable create : list (GLCall OpenGLDevice) -> OpenGLDevice -> Z -> Z.

Abbreviation Sh' := (Shader.t OpenGLDevice).
Abbreviation Trace' := (list (GLCall OpenGLDevice)).
Abbreviation exec' := (exec OpenGLDevice getiv getlog create).
Abbreviation run' := (run OpenGLDevice getiv getlog create).
Abbreviation created' := (created OpenGLDevice create).
Abbreviation balanced' := (balanced OpenGLDevice create).

Lemma created_from_app (before a b : Trace') :
  created_from _ create before (a ++ b)
  = (created_from _ create before a
     + created_from _ create (before ++ a) b)%nat.
Proof.
  revert before. induction a as [| c a IH]; intros before.
  - cbn. rewrite app_nil_r. reflexivity.
  - cbn [app created_from]. rewrite IH, <- app_assoc. cbn [app]. lia.
Qed.

Lemma created_app (tr added : Trace') :
  created' (tr ++ added)
  = (created' tr + created_from _ create tr added)%nat.
Proof. unfold created. apply created_from_app. Qed.

Lemma deleted_app (tr added : Trace') :
  deleted _ (tr ++ added) = (deleted _ tr + deleted _ added)%nat.
Proof. unfold deleted. rewrite list.filter_app, length_app. reflexivity. Qed.

(** Calls that neither create nor delete change neither count. *)
Lemma inert_counts (h : Z) (before added : Trace') :
  Forall (inert _ h) added ->
  created_from _ create before added = 0%nat /\ deleted _ added = 0%nat.
Proof.
  revert before. induction added as [| c added IH]; intros before Hall.
  - split; reflexivity.
  - inversion Hall as [| ? ? [Harg Hdel] Hrest]; subst.
    destruct (IH (before ++ [c]) Hrest) as [Hc Hd].
    split.
    + cbn [created_from]. rewrite Hc.
      destruct c; cbn in Harg |- *; try reflexivity; discriminate.
    + unfold deleted in *. rewrite list.filter_cons.
      destruct (decide (is_delete _ c = true)) as [Ht | _]; [congruence |].
      exact Hd.
Qed.

(** The calls of a [Compile] that returns are about the handle of the
    shader, which is not null, and are inert. *)
Lemma Compile_calls (s : Sh') (error : option (list ascii)) (tr : Trace')
    (r : bool * option (list ascii)) (tr' : Trace') :
  Compile _ getiv getlog s error tr = Ok (r, tr') ->
  m_shader _ s <> 0
  /\ exists added, tr' = tr ++ added /\ Forall (inert _ (m_shader _ s)) added.
Proof.
  unfold Compile, bind, deref, call, ret, stop.
  destruct (Z.eqb_spec (m_shader _ s) 0) as [| Hnz]; [discriminate |].
  destruct (m_device _ s) as [ctx |]; [| discriminate].
  destruct (_ =? 0).
  - destruct error as [e |].
    + destruct (string_resize e _) as [e' | | |]; try discriminate.
      destruct (0 <? _); intros [= <- <-]; (split; [exact Hnz |]);
        eexists; (split; [rewrite <- !app_assoc; cbn [app]; reflexivity |]);
        repeat constructor.
    + intros [= <- <-]. split; [exact Hnz |].
      eexists. split; [rewrite <- !app_assoc; cbn [app]; reflexivity |].
      repeat constructor.
  - intros [= <- <-]. split; [exact Hnz |].
    eexists. split; [rewrite <- !app_assoc; cbn [app]; reflexivity |].
    repeat constructor.
Qed.

(** What one call does to the shader object and to the trace. *)
Lemma exec_step (op : Op OpenGLDevice) (s s' : Sh') (tr tr' : Trace') :
  exec' op s tr = Ok (s', tr') ->
  consistent _ s ->
  consistent _ s'
  /\ exists added,
       tr' = tr ++ added
       /\ Forall (fun c => shader_argument _ c <> Some 0) added
       /\ (created_from _ create tr added + held _ s
           = deleted _ added + held _ s')%nat.
Proof.
  intros Hexec Hcons. destruct op as [error | device type | | fmt bin len | src len];
    cbn [exec] in Hexec.
  - apply bind_Ok in Hexec as (r & tr1 & Hc & Hret).
    injection Hret as <- <-.
    destruct (Compile_calls _ _ _ _ _ Hc) as (Hnz & added & -> & Hall).
    split; [exact Hcons |]. exists added. split; [reflexivity |].
    destruct (inert_counts _ tr added Hall) as [-> ->].
    split; [| reflexivity].
    rewrite list.Forall_forall in Hall |- *. intros c Hin.
    destruct (Hall c Hin) as [Harg _]. rewrite Harg. congruence.
  - apply bind_Ok in Hexec as ([r s2] & tr2 & Hc & Hret).
    injection Hret as <- <-. cbn [snd].
    destruct (Destroy_spec _ s tr Hcons) as (s1 & tr1 & HD & Hz & Hsame & Hdel).
    unfold Create, bind in Hc. rewrite HD in Hc. unfold call, ret in Hc.
    assert (Htr1 : exists d, tr1 = tr ++ d
              /\ Forall (fun c => shader_argument _ c <> Some 0) d
              /\ created_from _ create tr d = 0%nat
              /\ deleted _ d = held _ s).
    { unfold held. destruct (Z.eqb_spec (m_shader _ s) 0) as [Hz0 | Hnz].
      - exists []. rewrite app_nil_r. repeat split; [auto | constructor].
      - destruct (m_device _ s) as [ctx |] eqn:Hdev;
          [| exfalso; exact (Hcons Hnz Hdev)].
        exists [glDeleteShader _ ctx (m_shader _ s)].
        split; [exact (Hdel ctx Hnz eq_refl) |].
        split; [| split; reflexivity].
        constructor; [| constructor]. cbn. congruence. }
    destruct Htr1 as (d & -> & Hd0 & Hdc & Hdd).
    assert (Hs2 : s2 = {| m_device := Some device;
                          m_shader := create (tr ++ d) device type |}
                  /\ tr2 = (tr ++ d) ++ [glCreateShader _ device type]).
    { destruct (create (tr ++ d) device type =? 0);
        injection Hc as <- <- <-; split; reflexivity. }
    destruct Hs2 as [-> ->].
    split; [intros _; discriminate |].
    exists (d ++ [glCreateShader _ device type]).
    split; [rewrite app_assoc; reflexivity |].
    split.
    + apply Forall_app. split; [exact Hd0 |].
      constructor; [discriminate | constructor].
    + rewrite created_from_app, Hdc. unfold deleted in *.
      rewrite list.filter_app, length_app, Hdd. cbn [created_from handed_out].
      unfold held at 3. cbn [m_shader].
      replace (length (filter (fun c => is_delete _ c = true)
                         [glCreateShader _ device type]))
        with 0%nat by reflexivity.
      destruct (create (tr ++ d) device type =? 0); lia.
  - destruct (Destroy_spec _ s tr Hcons) as (s1 & tr1 & HD & Hz & Hsame & Hdel).
    rewrite HD in Hexec. injection Hexec as <- <-.
    split; [intros Hnz; contradiction |].
    unfold held. rewrite Hz. cbn [Z.eqb].
    destruct (Z.eqb_spec (m_shader _ s) 0) as [Hz0 | Hnz].
    + exists []. rewrite app_nil_r. repeat split; [auto | constructor].
    + destruct (m_device _ s) as [ctx |] eqn:Hdev;
        [| exfalso; exact (Hcons Hnz Hdev)].
      exists [glDeleteShader _ ctx (m_shader _ s)].
      split; [exact (Hdel ctx Hnz eq_refl) |].
      split; [| reflexivity].
      constructor; [| constructor]. cbn. congruence.
  - apply bind_Ok in Hexec as ([] & tr1 & Hc & Hret).
    injection Hret as <- <-.
    unfold SetBinarySource, bind, deref, call, stop, ret in Hc.
    destruct (Z.eqb_spec (m_shader _ s) 0) as [| Hnz]; [discriminate |].
    destruct (m_device _ s) as [ctx |]; [| discriminate].
    injection Hc as <-.
    split; [exact Hcons |]. eexists. split; [reflexivity |].
    split; [| reflexivity].
    constructor; [| constructor]. cbn. congruence.
  - apply bind_Ok in Hexec as ([] & tr1 & Hc & Hret).
    injection Hret as <- <-.
    unfold SetSource, bind, deref, call, stop, ret in Hc.
    destruct (Z.eqb_spec (m_shader _ s) 0) as [| Hnz]; [discriminate |].
    destruct (m_device _ s) as [ctx |]; [| discriminate].
    injection Hc as <-.
    split; [exact Hcons |]. eexists. split; [reflexivity |].
    split; [| reflexivity].
    constructor; [| constructor]. cbn. congruence.
Qed.

Lemma run_steps (ops : list (Op OpenGLDevice)) (s s' : Sh')
    (tr tr' : Trace') :
  run' ops s tr = Ok (s', tr') ->
  consistent _ s ->
  consistent _ s'
  /\ exists added,
       tr' = tr ++ added
       /\ Forall (fun c => shader_argument _ c <> Some 0) added
       /\ (created_from _ create tr added + held _ s
           = deleted _ added + held _ s')%nat.
Proof.
  revert s tr. induction ops as [| op ops IH]; intros s tr Hrun Hcons.
  - injection Hrun as <- <-. split; [exact Hcons |].
    exists []. rewrite app_nil_r.
    split; [reflexivity |]. split; [constructor | reflexivity].
  - cbn [run] in Hrun. apply bind_Ok in Hrun as (s1 & tr1 & Hexec & Hrest).
    destruct (exec_step _ _ _ _ _ Hexec Hcons)
      as (Hcons1 & a1 & -> & Hall1 & Hbal1).
    destruct (IH _ _ Hrest Hcons1) as (Hcons' & a2 & -> & Hall2 & Hbal2).
    split; [exact Hcons' |]. exists (a1 ++ a2).
    split; [rewrite app_assoc; reflexivity |].
    split; [apply Forall_app; split; assumption |].
    rewrite created_from_app. unfold deleted in *.
    rewrite list.filter_app, length_app. lia.
Qed.

(** Running one sequence after another. *)
Lemma run_app (a b : list (Op OpenGLDevice)) (s : Sh') (tr : Trace')
    (x : Sh' * Trace') :
  run' (a ++ b) s tr = Ok x <->
  exists s1 tr1, run' a s tr = Ok (s1, tr1) /\ run' b s1 tr1 = Ok x.
Proof.
  revert s tr. induction a as [| op a IH]; intros s tr; cbn [app run].
  - split; [intros Hb; exists s, tr; split; [reflexivity | exact Hb] |].
    intros (s1 & tr1 & [= <- <-] & Hb). exact Hb.
  - split.
    + intros Hrun. apply bind_Ok in Hrun as (s0 & tr0 & Hexec & Hrest).
      apply IH in Hrest as (s1 & tr1 & Ha & Hb).
      exists s1, tr1. split; [| exact Hb].
      unfold bind. rewrite Hexec. exact Ha.
    + intros (s1 & tr1 & Ha & Hb).
      apply bind_Ok in Ha as (s0 & tr0 & Hexec & Ha).
      unfold bind. rewrite Hexec. apply IH. exists s1, tr1. split; assumption.
Qed.

(** [Create] and [Destroy] return on every consistent shader. *)
Lemma lifetime_op_returns (op : Op OpenGLDevice) (s : Sh') (tr : Trace') :
  lifetime_op _ op -> consistent _ s ->
  exists s' tr', exec' op s tr = Ok (s', tr').
Proof.
  intros Hop Hcons.
  destruct (Destroy_spec _ s tr Hcons) as (s1 & tr1 & HD & _).
  destruct op; try contradiction; cbn [exec].
  - unfold Create, bind. rewrite HD. unfold call, ret.
    destruct (_ =? 0); eexists _, _; reflexivity.
  - rewrite HD. eexists _, _; reflexivity.
Qed.

(** X11. [Destroy] is idempotent: on a consistent shader it returns,
    leaves the shader without a handle, and a second [Destroy] then
    changes nothing and issues no native call; the handle is deleted at
    most once. *)
Theorem Destroy_idempotent (s : Sh') (tr : Trace') :
  consistent _ s ->
  exists s1 tr1,
    Destroy _ s tr = Ok (s1, tr1)
    /\ m_shader _ s1 = 0
    /\ Destroy _ s1 tr1 = Ok (s1, tr1)
    /\ deleted _ tr1 = (deleted _ tr + held _ s)%nat.
Proof.
  intros Hcons.
  destruct (Destroy_spec _ s tr Hcons) as (s1 & tr1 & HD & Hz & Hsame & Hdel).
  exists s1, tr1. split; [exact HD |]. split; [exact Hz |]. split.
  - unfold Destroy. rewrite Hz. reflexivity.
  - unfold held. destruct (Z.eqb_spec (m_shader _ s) 0) as [Hz0 | Hnz].
    + rewrite (Hsame Hz0). lia.
    + destruct (m_device _ s) as [ctx |] eqn:Hdev;
        [| exfalso; exact (Hcons Hnz Hdev)].
      rewrite (Hdel ctx Hnz eq_refl), deleted_app. reflexivity.
Qed.

(** X12. Whatever sequence of member functions is called on a
    consistent shader, if it runs to its end the calls issued before
    are kept and none of the calls added is about the null shader
    object: the wrapper never hands handle 0 to the driver. *)
Theorem never_null_handle (ops : list (Op OpenGLDevice)) (s s' : Sh')
    (tr tr' : Trace') :
  run' ops s tr = Ok (s', tr') ->
  consistent _ s ->
  exists added,
    tr' = tr ++ added
    /\ Forall (fun c => shader_argument _ c <> Some 0) added.
Proof.
  intros Hrun Hcons.
  destruct (run_steps _ _ _ _ _ Hrun Hcons) as (_ & added & Htr & Hall & _).
  exists added. split; assumption.
Qed.

(** X13. The handles are accounted for along every sequence of member
    functions that runs to its end: if every shader object the driver
    handed out had been deleted but for the one the shader held, the
    same is true afterwards; no handle is dropped without a deletion
    and none is deleted twice. *)
Theorem handles_balance (ops : list (Op OpenGLDevice)) (s s' : Sh')
    (tr tr' : Trace') :
  run' ops s tr = Ok (s', tr') ->
  consistent _ s ->
  balanced' s tr ->
  consistent _ s' /\ balanced' s' tr'.
Proof.
  intros Hrun Hcons Hbal.
  destruct (run_steps _ _ _ _ _ Hrun Hcons)
    as (Hcons' & added & -> & _ & Hstep).
  split; [exact Hcons' |].
  unfold balanced in *. rewrite created_app, deleted_app. lia.
Qed.

(** X14. A sequence of [Create] and [Destroy] calls followed by the
    destructor always runs to its end, leaves the shader without a
    handle, and has then asked the driver to delete every shader object
    it handed out. *)
Theorem no_handle_leak (ops : list (Op OpenGLDevice)) (s : Sh')
    (tr : Trace') :
  Forall (lifetime_op _) ops ->
  consistent _ s ->
  balanced' s tr ->
  exists s' tr',
    run' (ops ++ [OpDestroy _]) s tr = Ok (s', tr')
    /\ m_shader _ s' = 0
    /\ created' tr' = deleted _ tr'.
Proof.
  intros Hops Hcons Hbal.
  assert (Htotal : forall ops0 s0 tr0,
            Forall (lifetime_op _) ops0 -> consistent _ s0 ->
            exists s1 tr1, run' ops0 s0 tr0 = Ok (s1, tr1)).
  { induction ops0 as [| op ops0 IH]; intros s0 tr0 Hall Hc0.
    - eexists _, _; reflexivity.
    - inversion Hall as [| ? ? Hop Hrest]; subst.
      destruct (lifetime_op_returns op s0 tr0 Hop Hc0) as (s1 & tr1 & Hexec).
      destruct (exec_step _ _ _ _ _ Hexec Hc0) as (Hc1 & _).
      destruct (IH s1 tr1 Hrest Hc1) as (s2 & tr2 & Hrun).
      exists s2, tr2. cbn [run]. unfold bind. rewrite Hexec. exact Hrun. }
  assert (Hall : Forall (lifetime_op _) (ops ++ [OpDestroy _]))
    by (apply Forall_app; split; [exact Hops | repeat constructor]).
  destruct (Htotal _ s tr Hall Hcons) as (s' & tr' & Hrun).
  exists s', tr'. split; [exact Hrun |].
  assert (Hz : m_shader _ s' = 0).
  { apply run_app in Hrun as (s1 & tr1 & Hrun1 & Hlast).
    destruct (run_steps _ _ _ _ _ Hrun1 Hcons) as (Hc1 & _).
    destruct (Destroy_spec _ s1 tr1 Hc1) as (s2 & tr2 & HD & Hz & _).
    cbn [run exec] in Hlast. unfold bind in Hlast. rewrite HD in Hlast.
    injection Hlast as <- <-. exact Hz. }
  split; [exact Hz |].
  destruct (run_steps _ _ _ _ _ Hrun Hcons) as (_ & added & -> & _ & Hstep).
  unfold balanced in Hbal. rewrite created_app, deleted_app.
  unfold held at 2 in Hstep. rewrite Hz in Hstep. cbn [Z.eqb] in Hstep. lia.
Qed.

(** X15. After [Destroy] the shader cannot be used until it is created
    again: [Compile], [SetSource] and [SetBinarySource] fail their
    assertion, and no native call is made for them. *)
Theorem use_after_Destroy (s : Sh') (tr : Trace')
    (error : option (list ascii)) (source : list ascii) (binary : list byte)
    (len fmt : Z) :
  consistent _ s ->
  exists s1 tr1,
    Destroy _ s tr = Ok (s1, tr1)
    /\ Compile _ getiv getlog s1 error tr1 = AssertFailure
    /\ SetSource _ s1 source len tr1 = AssertFailure
    /\ SetBinarySource _ s1 fmt binary len tr1 = AssertFailure.
Proof.
  intros Hcons.
  destruct (Destroy_spec _ s tr Hcons) as (s1 & tr1 & HD & Hz & _).
  exists s1, tr1. split; [exact HD |].
  unfold Compile, SetSource, SetBinarySource. rewrite Hz.
  repeat split.
Qed.

(** X16. [Create] followed by [Compile]: whatever the shader held
    before, when [Create] returns [true] the compilation is asked for
    the new handle on the new device, and with a null error pointer
    exactly the compilation and the status query are issued; when
    [Create] returns [false], [Compile] fails its assertion. *)
Theorem Create_then_Compile (s : Sh') (device : OpenGLDevice) (type : Z)
    (tr : Trace') :
  consistent _ s ->
  exists r s2 tr2,
    Create _ create s device type tr = Ok ((r, s2), tr2)
    /\ (r = false ->
        forall error, Compile _ getiv getlog s2 error tr2 = AssertFailure)
    /\ (r = true ->
        let h := m_shader _ s2 in
        let status :=
          getiv (tr2 ++ [glCompileShader _ device h]) device h
            GL_COMPILE_STATUS in
        h <> 0
        /\ Compile _ getiv getlog s2 None tr2
           = Ok ((negb (status =? 0), None),
                 tr2 ++ [glCompileShader _ device h;
                         glGetShaderiv _ device h GL_COMPILE_STATUS])).
Proof.
  intros Hcons.
  destruct (Destroy_spec _ s tr Hcons) as (s1 & tr1 & HD & _).
  unfold Create, bind at 1. rewrite HD. unfold bind at 1, call at 1, ret.
  destruct (Z.eqb_spec (create tr1 device type) 0) as [Hnull | Hnn].
  - eexists _, _, _. split; [reflexivity |]. split; [| discriminate].
    intros _ error. unfold Compile. cbn [m_shader]. rewrite Hnull. reflexivity.
  - eexists _, _, _. split; [reflexivity |]. split; [discriminate |].
    intros _. cbn [m_shader]. split; [exact Hnn |].
    unfold Compile, bind, deref, call, ret, stop. cbn [m_shader m_device].
    replace (create tr1 device type =? 0) with false
      by (symmetry; apply Z.eqb_neq; exact Hnn).
    rewrite <- (app_assoc _ [glCompileShader _ _ _]). cbn [app].
    destruct (_ =? 0); reflexivity.
Qed.

(** X17. When the compilation fails and the backend reports a negative
    log length, [Compile] with a non-null error pointer does not
    return: resizing the string raises [std::length_error], after the
    compilation and the two queries and before any log is fetched. *)
Theorem Compile_negative_log_length (s : Sh') (ctx : OpenGLDevice)
    (e : list ascii) (tr : Trace') :
  m_shader _ s <> 0 ->
  m_device _ s = Some ctx ->
  let sh := m_shader _ s in
  let tr1 := tr ++ [glCompileShader _ ctx sh] in
  let tr2 := tr1 ++ [glGetShaderiv _ ctx sh GL_COMPILE_STATUS] in
  getiv tr1 ctx sh GL_COMPILE_STATUS = 0 ->
  getiv tr2 ctx sh GL_INFO_LOG_LENGTH < 0 ->
  Compile _ getiv getlog s (Some e) tr = LengthError.
Proof.
  intros Hsh Hdev sh tr1 tr2 Hstatus Hneg.
  unfold Compile, bind, deref, call, ret, stop.
  replace (m_shader _ s =? 0) with false
    by (symmetry; apply Z.eqb_neq; exact Hsh).
  rewrite Hdev. fold sh tr1. rewrite Hstatus. cbn [Z.eqb]. fold tr2.
  rewrite (string_resize_negative e _ Hneg). reflexivity.
Qed.

End ShaderLifetime.

(** ** BaseWidget: removing an entity or a child *)

Section FindErase.

Context {A : Type}.
Variable pred : A -> bool.

(** [find_if] returns the end exactly when no element satisfies the
    predicate. *)
Lemma find_if_end (l : list A) :
  BaseWidget.find_if pred l = length l <-> Forall (fun x => pred x = false) l.
Proof.
  induction l as [| x l IH]; cbn [BaseWidget.find_if length].
  - split; [constructor | reflexivity].
  - destruct (pred x) eqn:Hx.
    + split; [discriminate |]. intros Hall.
      inversion Hall; subst. congruence.
    + split.
      * intros [= Hl]. constructor; [exact Hx | apply IH; exact Hl].
      * intros Hall. inversion Hall; subst. f_equal. apply IH. assumption.
Qed.

(** Otherwise it returns the position of the first element that does,
    and erasing there removes that element only. *)
Lemma find_if_erase (l : list A) :
  BaseWidget.find_if pred l <> length l ->
  exists pre x post,
    l = pre ++ x :: post
    /\ pred x = true
    /\ Forall (fun y => pred y = false) pre
    /\ BaseWidget.find_if pred l = length pre
    /\ delete (BaseWidget.find_if pred l) l = pre ++ post.
Proof.
  induction l as [| x l IH]; cbn [BaseWidget.find_if length].
  - intros Hne. contradiction.
  - destruct (pred x) eqn:Hx.
    + intros _. exists [], x, l.
      split; [reflexivity |]. split; [exact Hx |].
      split; [constructor |]. split; reflexivity.
    + intros Hne. destruct IH as (pre & y & post & -> & Hy & Hpre & Hit & Hdel);
        [congruence |].
      exists (x :: pre), y, post. rewrite Hit in *. cbn [length].
      repeat split; try assumption; try reflexivity.
      * constructor; assumption.
      * cbn. f_equal. exact Hdel.
Qed.

End FindErase.

Section EraseByKey.

Context {A K : Type} `{EqDecision K}.
Variable proj : A -> K.
Variable k : K.

(** Searching for the first element whose key is [k], and erasing
    there: what is found and what is left. *)
Lemma erase_by_key (l : list A) :
  let it := BaseWidget.find_if (fun x => bool_decide (proj x = k)) l in
  (k ∉ (proj <$> l) -> it = length l)
  /\ (k ∈ (proj <$> l) ->
      it <> length l
      /\ exists pre x post,
           l = pre ++ x :: post
           /\ proj x = k
           /\ (k ∉ (proj <$> pre))
           /\ delete it l = pre ++ post).
Proof.
  set (pred := fun x : A => bool_decide (proj x = k)). intros it.
  assert (Hnone : forall l0 : list A,
            Forall (fun x => pred x = false) l0 <-> k ∉ (proj <$> l0)).
  { intros l0. rewrite list.Forall_forall, list_elem_of_fmap. split.
    - intros Hall (x & -> & Hin). specialize (Hall x Hin).
      unfold pred in Hall. apply bool_decide_eq_false in Hall. congruence.
    - intros Hnot x Hin. unfold pred. apply bool_decide_eq_false.
      intros Heq. apply Hnot. exists x. split; [symmetry |]; assumption. }
  split.
  - intros Habsent. apply find_if_end, Hnone. exact Habsent.
  - intros Hpresent.
    assert (Hne : it <> length l).
    { intros Hend. apply find_if_end, Hnone in Hend. contradiction. }
    split; [exact Hne |].
    destruct (find_if_erase pred l Hne)
      as (pre & x & post & Hl & Hx & Hpre & _ & Hdel).
    exists pre, x, post. split; [exact Hl |].
    split; [unfold pred in Hx; apply bool_decide_eq_true in Hx; exact Hx |].
    split; [apply Hnone; exact Hpre | exact Hdel].
Qed.

End EraseByKey.

Section WidgetLists.
Import BaseWidget.

Context {WidgetEntity Entity WidgetPtr Widget : Type}.
Context `{EqDecision Entity} `{EqDecision Widget}.
Variable handle : WidgetEntity -> Entity.
Variable get : WidgetPtr -> Widget.

(** X18. [DestroyEntity] fails its assertion when no entry of
    [m_entities] has the handle; otherwise it removes the first entry
    that has it and nothing else: the entries before and after it stay,
    in their order. *)
Theorem DestroyEntity_spec (m_entities : list WidgetEntity)
    (entity : Entity) :
  (entity ∉ (handle <$> m_entities) ->
   DestroyEntity handle m_entities entity = AssertFailure)
  /\ (entity ∈ (handle <$> m_entities) ->
      exists pre e post,
        m_entities = pre ++ e :: post
        /\ handle e = entity
        /\ (entity ∉ (handle <$> pre))
        /\ DestroyEntity handle m_entities entity = Ok (pre ++ post)).
Proof.
  unfold DestroyEntity.
  destruct (erase_by_key handle entity m_entities) as [Habsent Hpresent].
  split.
  - intros Hnot. rewrite (Habsent Hnot).
    rewrite bool_decide_eq_false_2; [reflexivity |].
    intros Hne. apply Hne. reflexivity.
  - intros Hin.
    destruct (Hpresent Hin) as (Hne & pre & e & post & Hl & He & Hpre & Hdel).
    exists pre, e, post. split; [exact Hl |]. split; [exact He |].
    split; [exact Hpre |].
    rewrite bool_decide_eq_true_2 by exact Hne. rewrite Hdel. reflexivity.
Qed.

(** X19. When the entries of [m_entities] have distinct handles, a
    successful [DestroyEntity] leaves exactly the entries with another
    handle, still with distinct handles, and destroying the same entity
    again fails the assertion. *)
Theorem DestroyEntity_twice (m_entities l' : list WidgetEntity)
    (entity : Entity) :
  NoDup (handle <$> m_entities) ->
  DestroyEntity handle m_entities entity = Ok l' ->
  (forall e, e ∈ l' <-> e ∈ m_entities /\ handle e <> entity)
  /\ length m_entities = S (length l')
  /\ NoDup (handle <$> l')
  /\ DestroyEntity handle l' entity = AssertFailure.
Proof.
  intros Hnodup Hok. unfold DestroyEntity in Hok.
  destruct (erase_by_key handle entity m_entities) as [Habsent Hpresent].
  destruct (decide (entity ∈ (handle <$> m_entities))) as [Hin | Hnin].
  2:{ rewrite (Habsent Hnin) in Hok.
      rewrite bool_decide_eq_false_2 in Hok; [discriminate |].
      intros Hne. apply Hne. reflexivity. }
  destruct (Hpresent Hin) as (Hne & pre & e0 & post & Hl & He0 & Hpre & Hdel).
  rewrite bool_decide_eq_true_2 in Hok by exact Hne.
  rewrite Hdel in Hok. injection Hok as <-. subst m_entities.
  rewrite fmap_app, fmap_cons in Hnodup.
  apply list.NoDup_app in Hnodup as (Hnd1 & Hdisj & Hnd2).
  apply list.NoDup_cons in Hnd2 as (Hfresh & Hnd2). rewrite He0 in Hfresh.
  assert (Hgone : entity ∉ (handle <$> (pre ++ post))).
  { rewrite fmap_app, not_elem_of_app. split; assumption. }
  split; [| split; [| split]].
  - intros e. rewrite !elem_of_app, elem_of_cons. split.
    + intros Hin'. split; [tauto |].
      intros Heq. apply Hgone. rewrite list_elem_of_fmap.
      exists e. split; [symmetry; exact Heq | rewrite elem_of_app; exact Hin'].
    + intros [[Hp | [-> | Hp]] Hne']; [left; exact Hp | contradiction
                                       | right; exact Hp].
  - rewrite !length_app. cbn [length]. lia.
  - rewrite fmap_app. apply list.NoDup_app. split; [exact Hnd1 |].
    split; [| exact Hnd2].
    intros x Hx Hx'. apply (Hdisj x Hx). rewrite elem_of_cons. right. exact Hx'.
  - unfold DestroyEntity.
    destruct (erase_by_key handle entity (pre ++ post)) as [Habs' _].
    rewrite (Habs' Hgone).
    rewrite bool_decide_eq_false_2; [reflexivity |].
    intros Hne'. apply Hne'. reflexivity.
Qed.

(** X20. The children are owned by distinct pointers.  [DestroyChild]
    fails its assertion on a widget that is not a child; on a child it
    removes that child only and keeps the other children in their
    order. *)
Theorem DestroyChild_spec (m_children : list WidgetPtr) (widget : Widget) :
  NoDup (get <$> m_children) ->
  (widget ∉ (get <$> m_children) ->
   DestroyChild get m_children widget = AssertFailure)
  /\ (widget ∈ (get <$> m_children) ->
      exists pre child post,
        m_children = pre ++ child :: post
        /\ get child = widget
        /\ (widget ∉ (get <$> (pre ++ post)))
        /\ DestroyChild get m_children widget = Ok (pre ++ post)).
Proof.
  intros Hnodup. unfold DestroyChild.
  destruct (erase_by_key get widget m_children) as [Habsent Hpresent].
  split.
  - intros Hnot. rewrite (Habsent Hnot).
    rewrite bool_decide_eq_false_2; [reflexivity |].
    intros Hne. apply Hne. reflexivity.
  - intros Hin.
    destruct (Hpresent Hin) as (Hne & pre & c & post & Hl & Hc & Hpre & Hdel).
    exists pre, c, post. split; [exact Hl |]. split; [exact Hc |].
    split.
    + rewrite Hl, fmap_app, fmap_cons in Hnodup.
      apply list.NoDup_app in Hnodup as (_ & _ & Hnd2).
      apply list.NoDup_cons in Hnd2 as (Hfresh & _). rewrite Hc in Hfresh.
      rewrite fmap_app, not_elem_of_app. split; [exact Hpre | exact Hfresh].
    + rewrite bool_decide_eq_true_2 by exact Hne. rewrite Hdel. reflexivity.
Qed.

End WidgetLists.

(** ** Instances of the properties above *)

Lemma GetComponentByType_first_carrier_witness :
  VertexDeclaration.GetComponentByType 5 4 Examples.userdata_twice 5 0
  = Ok None.
Proof.
  destruct (GetComponentByType_first_carrier (VertexInputRate := unit)
              5 4 Examples.userdata_twice 5 0)
    as (_ & _ & Hshadow); [left; reflexivity |].
  apply (Hshadow 1%nat (VertexDeclaration.mkComponent 3 5 0 12)).
  - reflexivity.
  - split; reflexivity.
  - repeat constructor. intros [Hc _]. discriminate Hc.
  - discriminate.
Defined.

Lemma HasComponentOfType_implies_HasComponent_witness :
  VertexDeclaration.HasComponent 5 Examples.userdata_twice 5 0 = Ok true.
Proof.
  destruct (HasComponentOfType_implies_HasComponent (VertexInputRate := unit)
              5 3 Examples.userdata_twice 5 0)
    as (Htyped & _); [left; reflexivity |].
  apply Htyped. reflexivity.
Defined.

Lemma FindComponent_of_stored_witness :
  exists j,
    VertexDeclaration.FindComponent 5 Examples.userdata_twice 5 0
    = Ok (Some j)
    /\ (j <= 2)%nat.
Proof.
  destruct (FindComponent_of_stored (VertexInputRate := unit)
              5 Examples.userdata_twice 2
              (VertexDeclaration.mkComponent 4 5 0 16))
    as (j & Hfind & Hle & _); [reflexivity | left; reflexivity |].
  exists j. split; [exact Hfind | exact Hle].
Defined.

Lemma example_consistent : Shader.consistent unit Examples.shader.
Proof. intros _. discriminate. Qed.

Lemma example_fresh_consistent : Shader.consistent unit Examples.fresh_shader.
Proof. intros Hn. exfalso. apply Hn. reflexivity. Qed.

Lemma Destroy_idempotent_witness :
  exists s1 tr1,
    Shader.Destroy unit Examples.shader [] = Ok (s1, tr1)
    /\ Shader.m_shader unit s1 = 0
    /\ Shader.Destroy unit s1 tr1 = Ok (s1, tr1)
    /\ Shader.deleted unit tr1
       = (Shader.deleted unit [] + Shader.held unit Examples.shader)%nat.
Proof.
  exact (Destroy_idempotent unit Examples.shader [] example_consistent).
Defined.

Lemma never_null_handle_witness :
  exists added,
    Examples.session_trace = [] ++ added
    /\ Forall (fun c => Shader.shader_argument unit c <> Some 0) added.
Proof.
  apply (never_null_handle unit Examples.driver_status Examples.driver_log
           Examples.driver_create Examples.session Examples.fresh_shader
           Examples.session_end [] Examples.session_trace).
  - reflexivity.
  - exact example_fresh_consistent.
Defined.

Lemma handles_balance_witness :
  Shader.consistent unit Examples.session_end
  /\ Shader.balanced unit Examples.driver_create Examples.session_end
       Examples.session_trace.
Proof.
  apply (handles_balance unit Examples.driver_status Examples.driver_log
           Examples.driver_create Examples.session Examples.fresh_shader
           Examples.session_end [] Examples.session_trace).
  - reflexivity.
  - exact example_fresh_consistent.
  - reflexivity.
Defined.

Lemma no_handle_leak_witness :
  exists s' tr',
    Shader.run unit Examples.driver_status Examples.driver_log
      Examples.driver_create
      ([Shader.OpCreate unit tt 35633; Shader.OpCreate unit tt 35632]
       ++ [Shader.OpDestroy unit])
      Examples.fresh_shader [] = Ok (s', tr')
    /\ Shader.m_shader unit s' = 0
    /\ Shader.created unit Examples.driver_create tr'
       = Shader.deleted unit tr'.
Proof.
  apply (no_handle_leak unit Examples.driver_status Examples.driver_log
           Examples.driver_create).
  - repeat constructor.
  - exact example_fresh_consistent.
  - reflexivity.
Defined.

Lemma use_after_Destroy_witness :
  exists s1 tr1,
    Shader.Destroy unit Examples.shader [] = Ok (s1, tr1)
    /\ Shader.Compile unit Examples.driver_status Examples.driver_log s1
         None tr1 = AssertFailure
    /\ Shader.SetSource unit s1 [] 0 tr1 = AssertFailure
    /\ Shader.SetBinarySource unit s1 0 [] 0 tr1 = AssertFailure.
Proof.
  exact (use_after_Destroy unit Examples.driver_status Examples.driver_log
           Examples.shader [] None [] [] 0 0 example_consistent).
Defined.

Lemma Create_then_Compile_witness :
  exists r s2 tr2,
    Shader.Create unit Examples.driver_create Examples.shader tt 35633 []
    = Ok ((r, s2), tr2)
    /\ (r = false ->
        forall error,
          Shader.Compile unit Examples.driver_status Examples.driver_log
            s2 error tr2 = AssertFailure).
Proof.
  destruct (Create_then_Compile unit Examples.driver_status
              Examples.driver_log Examples.driver_create Examples.shader
              tt 35633 [] example_consistent)
    as (r & s2 & tr2 & Hrun & Hfalse & _).
  exists r, s2, tr2. split; [exact Hrun | exact Hfalse].
Defined.

Lemma Compile_negative_log_length_witness :
  Shader.Compile unit Examples.driver_status_negative Examples.driver_log
    Examples.shader (Some Examples.stale_error) [] = LengthError.
Proof.
  apply (Compile_negative_log_length unit Examples.driver_status_negative
           Examples.driver_log Examples.shader tt Examples.stale_error []).
  - discriminate.
  - reflexivity.
  - reflexivity.
  - reflexivity.
Defined.

Lemma DestroyEntity_twice_witness :
  BaseWidget.DestroyEntity fst [(7, true); (9, false)] 8 = AssertFailure.
Proof.
  destruct (DestroyEntity_twice (Entity := Z) fst
              [(7, true); (8, true); (9, false)] [(7, true); (9, false)] 8)
    as (_ & _ & _ & Hagain).
  - cbn. repeat constructor; rewrite ?elem_of_cons, ?elem_of_nil; lia.
  - reflexivity.
  - exact Hagain.
Defined.

Lemma DestroyChild_spec_witness :
  BaseWidget.DestroyChild id [3; 4; 5] 6 = AssertFailure.
Proof.
  destruct (DestroyChild_spec (Widget := Z) id [3; 4; 5] 6) as (Habsent & _).
  - cbn. repeat constructor; rewrite ?elem_of_cons, ?elem_of_nil; lia.
  - apply Habsent. cbn. rewrite !elem_of_cons, elem_of_nil. lia.
Defined.
